(** * The open-document cache of the language server (api/lang/file.go)

    A shallow embedding of [files] and of the package-level functions
    [openFile], [closeFile], [changeFile], [getLine], [getContent],
    [getLineCount] and [isOpen], followed by the properties of the cache.

    Go strings are byte sequences; they are embedded as [string] (a list of
    8-bit characters).  Go's [int] is embedded as [Z]; no arithmetic is done
    on it by file.go, only comparison with a slice length. *)

From Stdlib Require Import ZArith Ascii String.
From stdpp Require Import base option list strings gmap.

Local Open Scope string_scope.
Local Open Scope Z_scope.

(** ** Bytes used as separators *)

Definition CR : ascii := "013"%char.
Definition LF : ascii := "010"%char.

(** The Go literals ["\r\n"] and ["\n"]. *)
Definition crlf : string := String CR (String LF EmptyString).
Definition lf : string := String LF EmptyString.

(** ** Go's [strings] package, as far as file.go calls it

    file.go calls [strings.Replace(text, "\r\n", "\n", -1)],
    [strings.Split(text, "\n")] and [strings.Join(lines, "\n")].  The
    functions below follow the loops of the Go library for a separator of
    length at least one.  With an empty separator the Go functions work on
    UTF-8 runes; file.go never does that and that branch is outside this
    embedding. *)
Module strings.

(** [s[:n]] for [n <= len(s)]. *)
Fixpoint slice_to (n : nat) (s : string) : string :=
  match n, s with
  | S n', String c r => String c (slice_to n' r)
  | _, _ => EmptyString
  end.

(** [s[n:]] for [n <= len(s)]. *)
Fixpoint slice_from (n : nat) (s : string) : string :=
  match n, s with
  | S n', String _ r => slice_from n' r
  | _, _ => s
  end.

(** [strings.HasPrefix(s, prefix)]. *)
Fixpoint HasPrefix (s prefix : string) {struct prefix} : bool :=
  match prefix, s with
  | EmptyString, _ => true
  | String p ps, String c r => if Ascii.eqb c p then HasPrefix r ps else false
  | String _ _, EmptyString => false
  end.

(** [strings.Index(s, substr)]: the index of the first instance of
    [substr] in [s]; Go's [-1] is [None]. *)
Fixpoint Index (s substr : string) : option nat :=
  if HasPrefix s substr then Some 0%nat
  else match s with
       | EmptyString => None
       | String _ r => S <$> Index r substr
       end.

(** The loop of [strings.Count]: [n++] and [s = s[i+len(substr):]] for as
    long as [Index] finds an instance.  Each round drops at least one byte
    of [s], so [S (length s)] rounds of fuel are never used up. *)
Fixpoint count_loop (fuel : nat) (s substr : string) : nat :=
  match fuel with
  | O => O
  | S fuel' =>
      match Index s substr with
      | None => O
      | Some i =>
          S (count_loop fuel' (slice_from (i + String.length substr) s) substr)
      end
  end.

(** [strings.Count(s, substr)]: the number of non-overlapping instances. *)
Definition Count (s substr : string) : nat :=
  count_loop (S (String.length s)) s substr.

(** The loop of [strings.Replace]: [n] times, write [s[start:j]] and [new]
    and move [start] past the instance found at [j]; then write the rest. *)
Fixpoint replace_loop (n : nat) (s old new : string) : string :=
  match n with
  | O => s
  | S n' =>
      match Index s old with
      | None => s
      | Some j =>
          slice_to j s +:+ new
            +:+ replace_loop n' (slice_from (j + String.length old) s) old new
      end
  end.

(** [strings.Replace(s, old, new, n)]; [n < 0] means no limit. *)
Definition Replace (s old new : string) (n : Z) : string :=
  if String.eqb old new || (n =? 0) then s
  else
    let m := Count s old in
    if (m =? 0)%nat then s
    else
      let n := if (n <? 0) || (Z.of_nat m <? n) then m else Z.to_nat n in
      replace_loop n s old new.

(** The loop of [genSplit]: at most [n] times, cut [s] at the next
    instance of [sep]; the rest of [s] is the last element. *)
Fixpoint split_loop (n : nat) (s sep : string) : list string :=
  match n with
  | O => [s]
  | S n' =>
      match Index s sep with
      | None => [s]
      | Some m =>
          slice_to m s :: split_loop n' (slice_from (m + String.length sep) s) sep
      end
  end.

(** [strings.Split(s, sep)], that is [genSplit(s, sep, 0, -1)]: a slice of
    [n = Count(s, sep) + 1] elements, filled by [n - 1] rounds of the loop.
    (The clamp of [n] to [len(s) + 1] never applies to a separator of
    length at least one.) *)
Definition Split (s sep : string) : list string :=
  split_loop (Count s sep) s sep.

(** [strings.Join(elems, sep)]. *)
Fixpoint Join (elems : list string) (sep : string) : string :=
  match elems with
  | [] => EmptyString
  | [e] => e
  | e :: rest => e +:+ sep +:+ Join rest sep
  end.

End strings.

(** ** The [lsp] parameter types (github.com/sourcegraph/go-langserver)

    The declarations come from the protocol package; file.go reads
    [TextDocument.URI], [TextDocument.Text] and [ContentChanges[0].Text]. *)
Module lsp.

(** [type DocumentURI string] *)
Abbreviation DocumentURI := string (only parsing).

Record Position := { Line : Z; Character : Z }.

Record Range := { Start : Position; End_ : Position }.

Module TextDocumentItem.
Record t := mk {
  URI : DocumentURI;
  LanguageID : string;
  Version : Z;
  Text : string }.
End TextDocumentItem.

Module TextDocumentIdentifier.
Record t := mk { URI : DocumentURI }.
End TextDocumentIdentifier.

Module VersionedTextDocumentIdentifier.
Record t := mk {
  URI : DocumentURI;   (* of the embedded TextDocumentIdentifier *)
  Version : Z }.
End VersionedTextDocumentIdentifier.

Module TextDocumentContentChangeEvent.
Record t := mk {
  Range_ : option Range;
  RangeLength : N;
  Text : string }.
End TextDocumentContentChangeEvent.

Module DidOpenTextDocumentParams.
Record t := mk { TextDocument : TextDocumentItem.t }.
End DidOpenTextDocumentParams.

Module DidCloseTextDocumentParams.
Record t := mk { TextDocument : TextDocumentIdentifier.t }.
End DidCloseTextDocumentParams.

Module DidChangeTextDocumentParams.
Record t := mk {
  TextDocument : VersionedTextDocumentIdentifier.t;
  ContentChanges : list TextDocumentContentChangeEvent.t }.
End DidChangeTextDocumentParams.

End lsp.

(** ** The cache and its mutex *)

(** [sync.Mutex], seen from one goroutine: held or free. *)
Inductive Mutex := Unlocked | Locked.

(** [type files struct { cache map[lsp.DocumentURI][]string; sync.Mutex }] *)
Record files := mkFiles {
  cache : gmap string (list string);
  mutex : Mutex }.

(** ** Outcomes of a call

    A call returns, panics with a Go run-time error, or never returns
    because it waits for a mutex nobody will release. *)
Inductive runtime_error :=
| IndexOutOfRange              (* "index out of range" *)
| UnlockOfUnlockedMutex.       (* "sync: unlock of unlocked mutex" *)

Inductive outcome (A : Type) :=
| Returns (a : A)
| Panics (e : runtime_error)
| Blocks.
Arguments Returns {A} a.
Arguments Panics {A} e.
Arguments Blocks {A}.

(** A computation on the cache: the outcome and the cache it leaves. *)
Definition M (A : Type) : Type := files -> outcome A * files.

Definition ret {A} (a : A) : M A := fun st => (Returns a, st).

Definition bind {A B} (m : M A) (k : A -> M B) : M B := fun st =>
  match m st with
  | (Returns a, st') => k a st'
  | (Panics e, st') => (Panics e, st')
  | (Blocks, st') => (Blocks, st')
  end.

Definition panic {A} (e : runtime_error) : M A := fun st => (Panics e, st).

Declare Scope go_scope.
Delimit Scope go_scope with go.
Notation "x <- m ;; k" := (bind m (fun x => k))
  (at level 100, m at next level, right associativity) : go_scope.
Notation "m ;; k" := (bind m (fun _ => k))
  (at level 100, right associativity) : go_scope.
Local Open Scope go_scope.

(** [defer d; body]: [d] runs when [body] returns and when it panics; a
    panic of [d] itself replaces the outcome. *)
Definition defer {A} (d : M unit) (body : M A) : M A := fun st =>
  match body st with
  | (Blocks, st') => (Blocks, st')
  | (r, st') =>
      match d st' with
      | (Returns _, st'') => (r, st'')
      | (Panics e, st'') => (Panics e, st'')
      | (Blocks, st'') => (Blocks, st'')
      end
  end.

(** [file.Lock()] *)
Definition Lock : M unit := fun st =>
  match mutex st with
  | Unlocked => (Returns tt, mkFiles (cache st) Locked)
  | Locked => (Blocks, st)
  end.

(** [file.Unlock()] *)
Definition Unlock : M unit := fun st =>
  match mutex st with
  | Locked => (Returns tt, mkFiles (cache st) Unlocked)
  | Unlocked => (Panics UnlockOfUnlockedMutex, st)
  end.

(** [file.cache[uri]] as an expression: a missing key reads as the zero
    value of [[]string], the nil slice, which has length 0. *)
Definition map_index (uri : string) : M (list string) := fun st =>
  (Returns (default [] (cache st !! uri)), st).

(** [_, ok := file.cache[uri]] *)
Definition map_index_ok (uri : string) : M bool := fun st =>
  (Returns (bool_decide (is_Some (cache st !! uri))), st).

(** [file.cache[uri] = v] *)
Definition map_assign (uri : string) (v : list string) : M unit := fun st =>
  (Returns tt, mkFiles (<[uri := v]> (cache st)) (mutex st)).

(** [delete(file.cache, uri)] *)
Definition map_delete (uri : string) : M unit := fun st =>
  (Returns tt, mkFiles (delete uri (cache st)) (mutex st)).

(** [a[i]] on a slice with an [int] index: a run-time panic unless
    [0 <= i < len(a)]. *)
Definition slice_index {A} (a : list A) (i : Z) : M A :=
  if i <? 0 then panic IndexOutOfRange
  else match a !! Z.to_nat i with
       | Some x => ret x
       | None => panic IndexOutOfRange
       end.

(** ** The methods of [*files] *)

Definition add (uri text : string) : M unit :=
  Lock ;;
  defer Unlock (
    let text := strings.Replace text crlf lf (-1) in
    map_assign uri (strings.Split text lf)).

Definition remove (uri : string) : M unit :=
  Lock ;;
  defer Unlock (map_delete uri).

Definition line (uri : string) (lineNo : Z) : M string :=
  Lock ;;
  defer Unlock (
    lines <- map_index uri ;;
    slice_index lines lineNo).

Definition content (uri : string) : M (list string) :=
  Lock ;;
  defer Unlock (map_index uri).

Definition exists_ (uri : string) : M bool :=
  Lock ;;
  defer Unlock (map_index_ok uri).

(** [var openFilesCache = &files{cache: make(map[lsp.DocumentURI][]string)}]:
    the initial value of the one cache all functions below work on. *)
Definition openFilesCache : files := mkFiles ∅ Unlocked.

(** ** The package-level functions *)

Definition openFile (params : lsp.DidOpenTextDocumentParams.t) : M unit :=
  let doc := lsp.DidOpenTextDocumentParams.TextDocument params in
  add (lsp.TextDocumentItem.URI doc) (lsp.TextDocumentItem.Text doc).

Definition closeFile (params : lsp.DidCloseTextDocumentParams.t) : M unit :=
  remove (lsp.TextDocumentIdentifier.URI
            (lsp.DidCloseTextDocumentParams.TextDocument params)).

Definition changeFile (params : lsp.DidChangeTextDocumentParams.t) : M unit :=
  change <- slice_index (lsp.DidChangeTextDocumentParams.ContentChanges params) 0 ;;
  add (lsp.VersionedTextDocumentIdentifier.URI
         (lsp.DidChangeTextDocumentParams.TextDocument params))
      (lsp.TextDocumentContentChangeEvent.Text change).

Definition getLine (uri : string) (line_ : Z) : M string :=
  line uri line_.

Definition getContent (uri : string) : M string :=
  lines <- content uri ;;
  ret (strings.Join lines lf).

Definition getLineCount (uri : string) : M Z :=
  lines <- content uri ;;
  ret (Z.of_nat (length lines)).

Definition isOpen (uri : string) : M bool :=
  exists_ uri.

(** ** What the specification says about texts

    [crlf_to_lf] and [segments] are written from the words of the
    specification, not from the code: the text with every ["\r\n"] replaced
    by ["\n"], and the ["\n"]-separated segments of a text.  They are
    compared with [strings.Replace] and [strings.Split] below. *)

Fixpoint crlf_to_lf (s : string) : string :=
  match s with
  | EmptyString => EmptyString
  | String c r =>
      match r with
      | String d r' =>
          if Ascii.eqb c CR && Ascii.eqb d LF then String LF (crlf_to_lf r')
          else String c (crlf_to_lf r)
      | EmptyString => String c EmptyString
      end
  end.

Fixpoint segments (s : string) : list string :=
  match s with
  | EmptyString => [EmptyString]
  | String c r =>
      if Ascii.eqb c LF then EmptyString :: segments r
      else match segments r with
           | seg :: segs => String c seg :: segs
           | [] => [String c EmptyString]
           end
  end.

(** The number of bytes of [s] equal to [b]. *)
Fixpoint count_byte (b : ascii) (s : string) : nat :=
  match s with
  | EmptyString => O
  | String c r => (if Ascii.eqb c b then 1 else 0) + count_byte b r
  end%nat.

(** What the cache stores for a text: [add]'s right-hand side. *)
Definition stored_lines (text : string) : list string :=
  strings.Split (strings.Replace text crlf lf (-1)) lf.

(** A cache whose mutex is free: the state between two calls. *)
Definition idle (c : gmap string (list string)) : files := mkFiles c Unlocked.

(** ** Sequences of calls

    The cache is reached through the seven package-level functions only.  A
    call that panics has run its deferred [Unlock] by the time the panic
    leaves it, so the cache it leaves is a cache like any other. *)
Inductive call :=
| OpenFile (params : lsp.DidOpenTextDocumentParams.t)
| CloseFile (params : lsp.DidCloseTextDocumentParams.t)
| ChangeFile (params : lsp.DidChangeTextDocumentParams.t)
| GetLine (uri : string) (line_ : Z)
| GetContent (uri : string)
| GetLineCount (uri : string)
| IsOpen (uri : string).

(** The cache a call leaves. *)
Definition perform (cl : call) (st : files) : files :=
  match cl with
  | OpenFile p => snd (openFile p st)
  | CloseFile p => snd (closeFile p st)
  | ChangeFile p => snd (changeFile p st)
  | GetLine uri n => snd (getLine uri n st)
  | GetContent uri => snd (getContent uri st)
  | GetLineCount uri => snd (getLineCount uri st)
  | IsOpen uri => snd (isOpen uri st)
  end.

(** The cache after the calls of [tr], the earliest first, on the initial
    cache. *)
Definition state_after (tr : list call) : files :=
  foldl (fun st cl => perform cl st) openFilesCache tr.

Definition is_write (cl : call) : bool :=
  match cl with
  | OpenFile _ | CloseFile _ | ChangeFile _ => true
  | _ => false
  end.

(** [cl] passes [id] to open or change. *)
Definition passes_to_open_or_change (id : string) (cl : call) : bool :=
  match cl with
  | OpenFile p =>
      bool_decide (lsp.TextDocumentItem.URI
                     (lsp.DidOpenTextDocumentParams.TextDocument p) = id)
  | ChangeFile p =>
      bool_decide (lsp.VersionedTextDocumentIdentifier.URI
                     (lsp.DidChangeTextDocumentParams.TextDocument p) = id)
  | _ => false
  end.

(** The text most recently stored for [id], written from the words of the
    specification: an open or a change stores its text, a close forgets
    it, calls on other identifiers and reads leave it.  A change without
    content changes stores nothing. *)
Definition track (id : string) (last : option string) (cl : call) : option string :=
  match cl with
  | OpenFile p =>
      let doc := lsp.DidOpenTextDocumentParams.TextDocument p in
      if decide (lsp.TextDocumentItem.URI doc = id)
      then Some (lsp.TextDocumentItem.Text doc) else last
  | ChangeFile p =>
      match lsp.DidChangeTextDocumentParams.ContentChanges p with
      | ch :: _ =>
          if decide (lsp.VersionedTextDocumentIdentifier.URI
                       (lsp.DidChangeTextDocumentParams.TextDocument p) = id)
          then Some (lsp.TextDocumentContentChangeEvent.Text ch) else last
      | [] => last
      end
  | CloseFile p =>
      if decide (lsp.TextDocumentIdentifier.URI
                   (lsp.DidCloseTextDocumentParams.TextDocument p) = id)
      then None else last
  | _ => last
  end.

Definition last_stored (id : string) (tr : list call) : option string :=
  foldl (track id) None tr.

(** Short forms of the parameter records, for statements. *)
Definition open_params (id lang : string) (ver : Z) (text : string) :=
  lsp.DidOpenTextDocumentParams.mk (lsp.TextDocumentItem.mk id lang ver text).

Definition close_params (id : string) :=
  lsp.DidCloseTextDocumentParams.mk (lsp.TextDocumentIdentifier.mk id).

Definition change_params (id : string) (ver : Z)
    (changes : list lsp.TextDocumentContentChangeEvent.t) :=
  lsp.DidChangeTextDocumentParams.mk
    (lsp.VersionedTextDocumentIdentifier.mk id ver) changes.

Definition full_text (text : string) : lsp.TextDocumentContentChangeEvent.t :=
  lsp.TextDocumentContentChangeEvent.mk None 0%N text.

(** Whether an outcome is a fault. *)
Definition is_fault {A} (o : outcome A) : bool :=
  match o with
  | Panics _ => true
  | _ => false
  end.

(** ** Sample data for the concrete instances *)

Definition a_txt : string := "file:///a.txt".
Definition b_txt : string := "file:///b.txt".

(** The text of the specification's scenario, ["line1\r\nline2\r\n"]. *)
Definition two_lines : string := "line1" +:+ crlf +:+ "line2" +:+ crlf.

Definition opened_two_lines : list call :=
  [OpenFile (open_params a_txt "gauge" 1 two_lines)].

Definition opened_then_changed : list call :=
  [OpenFile (open_params a_txt "gauge" 1 "spec");
   ChangeFile (change_params a_txt 2 [full_text "spec 2"])].

Definition opened_then_closed : list call :=
  [OpenFile (open_params a_txt "gauge" 1 "spec");
   CloseFile (close_params a_txt)].

(** ** Calls, seen from outside *)

(** The outcome of a call, without the value it returns. *)
Definition forget {A} (o : outcome A) : outcome unit :=
  match o with
  | Returns _ => Returns tt
  | Panics e => Panics e
  | Blocks => Blocks
  end.

Definition outcome_of (cl : call) (st : files) : outcome unit :=
  match cl with
  | OpenFile p => forget (fst (openFile p st))
  | CloseFile p => forget (fst (closeFile p st))
  | ChangeFile p => forget (fst (changeFile p st))
  | GetLine uri n => forget (fst (getLine uri n st))
  | GetContent uri => forget (fst (getContent uri st))
  | GetLineCount uri => forget (fst (getLineCount uri st))
  | IsOpen uri => forget (fst (isOpen uri st))
  end.

(** The identifier a call is about. *)
Definition target (cl : call) : string :=
  match cl with
  | OpenFile p =>
      lsp.TextDocumentItem.URI (lsp.DidOpenTextDocumentParams.TextDocument p)
  | CloseFile p =>
      lsp.TextDocumentIdentifier.URI
        (lsp.DidCloseTextDocumentParams.TextDocument p)
  | ChangeFile p =>
      lsp.VersionedTextDocumentIdentifier.URI
        (lsp.DidChangeTextDocumentParams.TextDocument p)
  | GetLine uri _ | GetContent uri | GetLineCount uri | IsOpen uri => uri
  end.

(** The calls that index a slice: the only ones with a bounds check. *)
Definition indexes_a_slice (cl : call) : bool :=
  match cl with
  | GetLine _ _ | ChangeFile _ => true
  | _ => false
  end.

(** A write that reaches the map: an open, a close, or a change that has a
    first content change. *)
Definition reaches_the_map (cl : call) : bool :=
  match cl with
  | OpenFile _ | CloseFile _ => true
  | ChangeFile p =>
      match lsp.DidChangeTextDocumentParams.ContentChanges p with
      | [] => false
      | _ :: _ => true
      end
  | _ => false
  end.

(** The bytes of a text other than ["\r"], in their order. *)
Fixpoint without_cr (s : string) : string :=
  match s with
  | EmptyString => EmptyString
  | String c r =>
      if Ascii.eqb c CR then without_cr r else String c (without_cr r)
  end.

(** A line without a ["\n"] byte. *)
Definition lf_free (l : string) : Prop := count_byte LF l = O.

Definition held (c : gmap string (list string)) : files := mkFiles c Locked.

Definition crlf_text : string := "a" +:+ crlf +:+ "b".

(** What a call does to the entry of its identifier once it holds the
    mutex: nothing ([None]), delete it ([Some None]) or assign lines to it
    ([Some (Some lines)]). *)
Definition map_op (cl : call) : option (option (list string)) :=
  match cl with
  | OpenFile p =>
      Some (Some (stored_lines
                    (lsp.TextDocumentItem.Text
                       (lsp.DidOpenTextDocumentParams.TextDocument p))))
  | CloseFile _ => Some None
  | ChangeFile p =>
      match lsp.DidChangeTextDocumentParams.ContentChanges p with
      | ch :: _ =>
          Some (Some (stored_lines (lsp.TextDocumentContentChangeEvent.Text ch)))
      | [] => None
      end
  | _ => None
  end.

Definition effect (cl : call) (c : gmap string (list string))
  : gmap string (list string) :=
  match map_op cl with
  | None => c
  | Some o => partial_alter (fun _ => o) (target cl) c
  end.

Definition opened_ab : list call :=
  [OpenFile (open_params a_txt "gauge" 1 "spec");
   OpenFile (open_params b_txt "gauge" 1 "concept")].

(** ** Two goroutines on the one cache

    Every method of [*files] is [file.Lock(); defer file.Unlock()] around
    a body.  A goroutine inside a method is at one of four positions; a
    schedule says which of two goroutines takes the next step.  A goroutine
    at [file.Lock()] on a held mutex does not move: it waits. *)

(** The bodies of the five methods: what runs between [Lock] and the
    deferred [Unlock]. *)
Definition add_body (uri text : string) : M unit :=
  let text := strings.Replace text crlf lf (-1) in
  map_assign uri (strings.Split text lf).

Definition remove_body (uri : string) : M unit := map_delete uri.

Definition line_body (uri : string) (lineNo : Z) : M string :=
  lines <- map_index uri ;;
  slice_index lines lineNo.

Definition content_body (uri : string) : M (list string) := map_index uri.

Definition exists_body (uri : string) : M bool := map_index_ok uri.

(** [file.Lock(); defer file.Unlock(); body], run by one goroutine without
    interruption. *)
Definition locked {A} (body : M A) : M A :=
  Lock ;; defer Unlock body.

Inductive position (A : Type) :=
| AtLock                       (* about to call [file.Lock()] *)
| InBody                       (* holds the mutex, body not yet run *)
| AtUnlock (r : outcome A)     (* body ended with [r], deferred
                                  [file.Unlock()] not yet run *)
| Finished (r : outcome A).    (* left the method with [r] *)
Arguments AtLock {A}.
Arguments InBody {A}.
Arguments AtUnlock {A} r.
Arguments Finished {A} r.

(** One step of a goroutine in a method with body [body]. *)
Definition goroutine_step {A} (body : M A) (p : position A) (st : files)
  : position A * files :=
  match p with
  | AtLock =>
      match Lock st with
      | (Returns _, st') => (InBody, st')
      | (_, st') => (AtLock, st')
      end
  | InBody =>
      match body st with
      | (Blocks, st') => (InBody, st')
      | (r, st') => (AtUnlock r, st')
      end
  | AtUnlock r =>
      match Unlock st with
      | (Returns _, st') => (Finished r, st')
      | (Panics e, st') => (Finished (Panics e), st')
      | (Blocks, st') => (AtUnlock r, st')
      end
  | Finished r => (Finished r, st)
  end.

(** Two goroutines under a schedule: [true] lets the first one step,
    [false] the second. *)
Fixpoint interleave {A B} (b1 : M A) (b2 : M B) (sched : list bool)
    (p1 : position A) (p2 : position B) (st : files)
  : position A * position B * files :=
  match sched with
  | [] => (p1, p2, st)
  | true :: sched' =>
      let (p1', st') := goroutine_step b1 p1 st in
      interleave b1 b2 sched' p1' p2 st'
  | false :: sched' =>
      let (p2', st') := goroutine_step b2 p2 st in
      interleave b1 b2 sched' p1 p2' st'
  end.

(** A goroutine between [Lock] and [Unlock]. *)
Definition inside {A} (p : position A) : bool :=
  match p with
  | InBody | AtUnlock _ => true
  | AtLock | Finished _ => false
  end.

(** A body that works on the map only: under the held mutex it ends,
    returning or panicking, and leaves the mutex held. *)
Definition map_only {A} (body : M A) : Prop :=
  forall c, exists r c', body (held c) = (r, held c') /\ r <> Blocks.

(** The configurations two goroutines go through when the first one gets
    the mutex first, from the idle cache [c0]. *)
Inductive first_then_second {A B} (b1 : M A) (b2 : M B)
    (c0 : gmap string (list string))
  : position A -> position B -> files -> Prop :=
| fts_start :
    first_then_second b1 b2 c0 AtLock AtLock (idle c0)
| fts_first_in :
    first_then_second b1 b2 c0 InBody AtLock (held c0)
| fts_first_ran r1 c1 :
    b1 (held c0) = (r1, held c1) -> r1 <> Blocks ->
    first_then_second b1 b2 c0 (AtUnlock r1) AtLock (held c1)
| fts_first_out r1 c1 :
    b1 (held c0) = (r1, held c1) -> r1 <> Blocks ->
    first_then_second b1 b2 c0 (Finished r1) AtLock (idle c1)
| fts_second_in r1 c1 :
    b1 (held c0) = (r1, held c1) -> r1 <> Blocks ->
    first_then_second b1 b2 c0 (Finished r1) InBody (held c1)
| fts_second_ran r1 c1 r2 c2 :
    b1 (held c0) = (r1, held c1) -> r1 <> Blocks ->
    b2 (held c1) = (r2, held c2) -> r2 <> Blocks ->
    first_then_second b1 b2 c0 (Finished r1) (AtUnlock r2) (held c2)
| fts_second_out r1 c1 r2 c2 :
    b1 (held c0) = (r1, held c1) -> r1 <> Blocks ->
    b2 (held c1) = (r2, held c2) -> r2 <> Blocks ->
    first_then_second b1 b2 c0 (Finished r1) (Finished r2) (idle c2).

(** A schedule that lets both goroutines finish from wherever they are. *)
Definition drain : list bool :=
  [true; true; true; false; false; false; true; true; true].

(** A schedule under which the second goroutine asks for the mutex while
    the first one holds it. *)
Definition overlapping : list bool :=
  [true; false; true; false; true; false; false; false].

(** ** The logger (logger/logger.go) *)

(** The levels of github.com/op/go-logging, in the order of its [iota]:
    [CRITICAL] is 0, the zero value of [logging.Level]. *)
Module logging.
Inductive Level := CRITICAL | ERROR | WARNING | NOTICE | INFO | DEBUG.

Definition Level_eqb (a b : Level) : bool :=
  match a, b with
  | CRITICAL, CRITICAL | ERROR, ERROR | WARNING, WARNING
  | NOTICE, NOTICE | INFO, INFO | DEBUG, DEBUG => true
  | _, _ => false
  end.
End logging.

(** [strings.ToLower] on a string of ASCII bytes: the bytes ['A'..'Z'] get
    ['a' - 'A'] added, all others stay. *)
Definition is_ascii_byte (c : ascii) : bool := (nat_of_ascii c <? 128)%nat.

Definition is_upper_byte (c : ascii) : bool :=
  (65 <=? nat_of_ascii c)%nat && (nat_of_ascii c <=? 90)%nat.

Definition lower_byte (c : ascii) : ascii :=
  if is_upper_byte c then ascii_of_nat (nat_of_ascii c + 32) else c.

Fixpoint all_ascii (s : string) : bool :=
  match s with
  | EmptyString => true
  | String c r => is_ascii_byte c && all_ascii r
  end.

Fixpoint has_upper (s : string) : bool :=
  match s with
  | EmptyString => false
  | String c r => is_upper_byte c || has_upper r
  end.

Fixpoint lower_bytes (s : string) : string :=
  match s with
  | EmptyString => EmptyString
  | String c r => String (lower_byte c) (lower_bytes r)
  end.

Module logger.
Section Model.

(** The operands of a format ([...interface{}]) and the custom loggers are
    values of the callers; the logger only passes them on. *)
Context {arg CL : Type}.

(** What logger.go takes from its platform and from packages outside this
    directory. *)
Record platform := {
  GOOS : string;                           (* runtime.GOOS *)
  Getenv : string -> string;               (* os.Getenv *)
  IsAbs : string -> bool;                  (* filepath.IsAbs *)
  Join : list string -> string;            (* filepath.Join *)
  ProjectRoot : string;                    (* config.ProjectRoot *)
  GetGaugeHomeDirectory : option string;   (* common.GetGaugeHomeDirectory,
                                              [None] for [err != nil] *)
  Sprintf : string -> list arg -> string;  (* fmt.Sprintf *)
  MapToLower : string -> string            (* strings.Map(unicode.ToLower, s),
                                              the path of [strings.ToLower]
                                              for a string with a byte
                                              >= 0x80 *)
}.

(** [strings.ToLower]. *)
Definition ToLower (w : platform) (s : string) : string :=
  if all_ascii s then (if has_upper s then lower_bytes s else s)
  else MapToLower w s.

Definition logsDirectory : string := "logs_directory".
Definition logs : string := "logs".
Definition GaugeLogFileName : string := "gauge.log".
Definition apiLogFileName : string := "api.log".
Definition lspLogFileName : string := "lsp.log".

(** [var level logging.Level], [var isWindows bool] and
    [var customLogger CustomLogger] ([None] for the nil interface). *)
Record state := mkState {
  level : logging.Level;
  isWindows : bool;
  customLogger : option CL }.

(** The variables before any call: their zero values. *)
Definition initial : state := mkState logging.CRITICAL false None.

(** [&lumberjack.Logger{...}] *)
Record lumberjack_Logger := {
  Filename : string;
  MaxSize : Z;
  MaxBackups : Z;
  MaxAge : Z }.

(** What the logger asks of the outside, in the order it asks. *)
Inductive event :=
| Logf (name : string) (lvl : logging.Level) (format : string) (args : list arg)
    (* [GaugeLog.Infof(format, args...)] and the like, on the logger
       [logging.MustGetLogger(name)] *)
| CustomLog (l : CL) (lvl : logging.Level) (msg : string)
    (* [customLogger.Log(lvl, msg)] *)
| Println (msg : string)
    (* [fmt.Println(msg)] *)
| SetBackend (name : string) (file : lumberjack_Logger) (format : string)
    (lvl : logging.Level).
    (* [fileLogger.SetBackend] of a backend on [file], formatted by
       [format], with level [lvl] for all modules *)

(** The loggers [GaugeLog], [APILog] and [LspLog], by their names. *)
Definition GaugeLog : string := "gauge".
Definition APILog : string := "gauge-api".
Definition LspLog : string := "gauge-lsp".

Definition fileLogFormat : string := "%{time:15:04:05.000} %{message}".

Definition SetCustomLogger (l : option CL) (st : state) : state :=
  mkState (level st) (isWindows st) l.

Definition write (w : platform) (st : state) (logLevel : logging.Level)
    (msg : string) (args : list arg) : list event :=
  match customLogger st with
  | Some l => [CustomLog l logLevel (Sprintf w msg args)]
  | None => [Println (Sprintf w msg args)]
  end.

Definition Infof (w : platform) (st : state) (msg : string) (args : list arg)
  : list event :=
  Logf GaugeLog logging.INFO msg args :: write w st logging.INFO msg args.

Definition Errorf (w : platform) (st : state) (msg : string) (args : list arg)
  : list event :=
  Logf GaugeLog logging.ERROR msg args :: write w st logging.ERROR msg args.

Definition Warningf (w : platform) (st : state) (msg : string) (args : list arg)
  : list event :=
  Logf GaugeLog logging.WARNING msg args :: write w st logging.WARNING msg args.

Definition Debugf (w : platform) (st : state) (msg : string) (args : list arg)
  : list event :=
  Logf GaugeLog logging.DEBUG msg args
  :: (if logging.Level_eqb (level st) logging.DEBUG
      then write w st logging.DEBUG msg args
      else []).

Definition createFileLogger (name : string) (size : Z) : lumberjack_Logger :=
  {| Filename := name; MaxSize := size; MaxBackups := 3; MaxAge := 28 |}.

Definition addLogsDirPath (w : platform) (logFileName : string) : string :=
  let customLogsDir := Getenv w logsDirectory in
  if String.eqb customLogsDir "" then Join w [logs; logFileName]
  else Join w [customLogsDir; logFileName].

Definition GetLogFile (w : platform) (fileName : string) : string :=
  if IsAbs w fileName then fileName
  else
    let fileName := addLogsDirPath w fileName in
    if negb (String.eqb (ProjectRoot w) "") then Join w [ProjectRoot w; fileName]
    else match GetGaugeHomeDirectory w with
         | None => fileName
         | Some gaugeHome => Join w [gaugeHome; fileName]
         end.

Definition initFileLogger (w : platform) (logFileName fileLogger : string)
  : list event :=
  [SetBackend fileLogger (createFileLogger (GetLogFile w logFileName) 10)
     fileLogFormat logging.DEBUG].

Definition loggingLevel (w : platform) (logLevel : string) : logging.Level :=
  if negb (String.eqb logLevel "") then
    let l := ToLower w logLevel in
    if String.eqb l "debug" then logging.DEBUG
    else if String.eqb l "info" then logging.INFO
    else if String.eqb l "warning" then logging.WARNING
    else if String.eqb l "error" then logging.ERROR
    else logging.INFO
  else logging.INFO.

Definition Initialize (w : platform) (st : state) (logLevel : string)
  : list event * state :=
  ((initFileLogger w GaugeLogFileName GaugeLog
      ++ initFileLogger w apiLogFileName APILog
      ++ initFileLogger w lspLogFileName LspLog)%list,
   mkState (loggingLevel w logLevel)
     (if String.eqb (GOOS w) "windows" then true else isWindows st)
     (customLogger st)).

Fixpoint HandleWarningMessages (w : platform) (st : state)
    (warnings : list string) : list event :=
  match warnings with
  | [] => []
  | warning :: rest =>
      (Warningf w st warning [] ++ HandleWarningMessages w st rest)%list
  end.

(** An event that writes to standard output. *)
Definition is_Println (e : event) : bool :=
  match e with
  | Println _ => true
  | _ => false
  end.

(** An event that hands a message to a custom logger. *)
Definition is_CustomLog (e : event) : bool :=
  match e with
  | CustomLog _ _ _ => true
  | _ => false
  end.

(** The message-logging calls of the package. *)
Inductive log_call :=
| CallInfof (msg : string) (args : list arg)
| CallErrorf (msg : string) (args : list arg)
| CallWarningf (msg : string) (args : list arg)
| CallDebugf (msg : string) (args : list arg)
| CallHandleWarningMessages (warnings : list string).

Definition events_of (w : platform) (st : state) (cl : log_call) : list event :=
  match cl with
  | CallInfof msg args => Infof w st msg args
  | CallErrorf msg args => Errorf w st msg args
  | CallWarningf msg args => Warningf w st msg args
  | CallDebugf msg args => Debugf w st msg args
  | CallHandleWarningMessages warnings => HandleWarningMessages w st warnings
  end.

End Model.
Arguments platform : clear implicits.
Arguments state : clear implicits.
Arguments event : clear implicits.
Arguments log_call : clear implicits.
End logger.

(** The event that shows [msg] to the user at level [lvl]: a call of the
    custom logger when one is set, a line on standard output otherwise. *)
Definition shown {arg CL : Type} (st : logger.state CL) (lvl : logging.Level)
    (msg : string) : logger.event arg CL :=
  match logger.customLogger st with
  | Some l => logger.CustomLog l lvl msg
  | None => logger.Println msg
  end.

(** A platform for the concrete instances: Unix-like, nothing set. *)
Definition sample_platform : logger.platform nat :=
  {| logger.GOOS := "linux";
     logger.Getenv := fun _ => "";
     logger.IsAbs := fun p => strings.HasPrefix p "/";
     logger.Join := fun elems => strings.Join elems "/";
     logger.ProjectRoot := "";
     logger.GetGaugeHomeDirectory := None;
     logger.Sprintf := fun msg _ => msg;
     logger.MapToLower := fun s => s |}.

(** ** The scenario of the specification, evaluated *)

Example Replace_lone_cr :
  strings.Replace (String CR crlf +:+ lf +:+ String CR "x") crlf lf (-1)
  = String CR lf +:+ lf +:+ String CR "x".
Proof. reflexivity. Qed.

Example Split_empty : strings.Split "" lf = [""].
Proof. reflexivity. Qed.

Example Split_trailing : strings.Split ("a" +:+ lf +:+ "b" +:+ lf) lf = ["a"; "b"; ""].
Proof. reflexivity. Qed.

Example Join_nil : strings.Join [] lf = "".
Proof. reflexivity. Qed.

Example scenario_lines :
  stored_lines ("line1" +:+ crlf +:+ "line2" +:+ crlf) = ["line1"; "line2"; ""].
Proof. reflexivity. Qed.

Example scenario_count :
  fst (getLineCount "file:///a.txt"
         (snd (add "file:///a.txt" ("line1" +:+ crlf +:+ "line2" +:+ crlf) openFilesCache)))
  = Returns 3.
Proof. vm_compute. reflexivity. Qed.

Example scenario_content :
  fst (getContent "file:///a.txt"
         (snd (add "file:///a.txt" ("line1" +:+ crlf +:+ "line2" +:+ crlf) openFilesCache)))
  = Returns ("line1" +:+ lf +:+ "line2" +:+ lf).
Proof. vm_compute. reflexivity. Qed.

Example scenario_missing :
  fst (getContent "file:///a.txt" openFilesCache) = Returns ""
  /\ fst (getLineCount "file:///a.txt" openFilesCache) = Returns 0
  /\ fst (getLine "file:///a.txt" 0 openFilesCache) = Panics IndexOutOfRange.
Proof. vm_compute. auto. Qed.

(** ** Facts about the [strings] functions *)
Section StringsFacts.
Import strings.

Lemma length_slice_from (n : nat) (s : string) :
  (n <= String.length s)%nat ->
  (String.length (slice_from n s) + n = String.length s)%nat.
Proof.
  revert s. induction n as [|n IH]; intros [|c r]; simpl; intros H; try lia.
  specialize (IH r). lia.
Qed.

Lemma HasPrefix_lf (c : ascii) (r : string) :
  HasPrefix (String c r) lf = Ascii.eqb c LF.
Proof. unfold lf. cbn [HasPrefix]. by destruct (Ascii.eqb c LF). Qed.

Lemma Index_lf_cons (c : ascii) (r : string) :
  Index (String c r) lf = if Ascii.eqb c LF then Some O else S <$> Index r lf.
Proof.
  change (Index (String c r) lf)
    with (if HasPrefix (String c r) lf then Some O else S <$> Index r lf).
  by rewrite HasPrefix_lf.
Qed.

Lemma Index_lf_nil : Index EmptyString lf = None.
Proof. reflexivity. Qed.

(** [Index] finds an instance inside the string. *)
Lemma Index_lf_bound (s : string) (m : nat) :
  Index s lf = Some m -> (m + 1 <= String.length s)%nat.
Proof.
  revert m. induction s as [|c r IH]; intros m; [discriminate|].
  rewrite Index_lf_cons. destruct (Ascii.eqb c LF).
  - intros [= <-]. simpl. lia.
  - destruct (Index r lf) as [m'|]; [|discriminate].
    intros [= <-]. specialize (IH m' eq_refl). simpl. lia.
Qed.

Lemma segments_nonempty (s : string) : segments s <> [].
Proof.
  induction s as [|c r IH]; simpl; [discriminate|].
  destruct (Ascii.eqb c LF); [discriminate|].
  destruct (segments r); discriminate.
Qed.

(** Cutting at the first ["\n"] gives the first segment. *)
Lemma segments_Index_Some (s : string) (m : nat) :
  Index s lf = Some m ->
  segments s = slice_to m s :: segments (slice_from (m + 1) s).
Proof.
  revert m. induction s as [|c r IH]; intros m; [discriminate|].
  rewrite Index_lf_cons. simpl segments.
  destruct (Ascii.eqb c LF).
  - intros [= <-]. simpl. by destruct r.
  - destruct (Index r lf) as [m'|]; [|discriminate].
    intros [= <-]. rewrite (IH m' eq_refl). reflexivity.
Qed.

Lemma segments_Index_None (s : string) :
  Index s lf = None -> segments s = [s].
Proof.
  induction s as [|c r IH]; [reflexivity|].
  rewrite Index_lf_cons. simpl segments.
  destruct (Ascii.eqb c LF); [discriminate|].
  destruct (Index r lf); [discriminate|].
  intros _. by rewrite IH.
Qed.

(** With enough fuel, [count_loop] counts the ["\n"] bytes. *)
Lemma count_byte_Index_Some (s : string) (m : nat) :
  Index s lf = Some m ->
  count_byte LF s = S (count_byte LF (slice_from (m + 1) s)).
Proof.
  revert m. induction s as [|c r IH]; intros m; [discriminate|].
  rewrite Index_lf_cons. simpl count_byte.
  destruct (Ascii.eqb c LF).
  - intros [= <-]. simpl. by destruct r.
  - destruct (Index r lf) as [m'|]; [|discriminate].
    intros [= <-]. by rewrite (IH m' eq_refl).
Qed.

Lemma count_byte_Index_None (s : string) :
  Index s lf = None -> count_byte LF s = O.
Proof.
  induction s as [|c r IH]; [reflexivity|].
  rewrite Index_lf_cons. simpl count_byte.
  destruct (Ascii.eqb c LF); [discriminate|].
  destruct (Index r lf); [discriminate|]. auto.
Qed.

Lemma count_loop_lf (fuel : nat) (s : string) :
  (String.length s < fuel)%nat -> count_loop fuel s lf = count_byte LF s.
Proof.
  revert s. induction fuel as [|fuel IH]; intros s Hlen; [lia|].
  simpl count_loop. destruct (Index s lf) as [m|] eqn:Hm.
  - rewrite (count_byte_Index_Some _ _ Hm). f_equal.
    change (String.length lf) with 1%nat. apply IH.
    pose proof (Index_lf_bound _ _ Hm).
    pose proof (length_slice_from (m + 1) s ltac:(lia)). lia.
  - by rewrite count_byte_Index_None.
Qed.

Lemma Count_lf (s : string) : Count s lf = count_byte LF s.
Proof. apply count_loop_lf. lia. Qed.

Lemma split_loop_lf (s : string) :
  split_loop (count_byte LF s) s lf = segments s.
Proof.
  remember (String.length s) as k eqn:Hk.
  revert s Hk. induction k as [k IH] using lt_wf_ind. intros s ->.
  destruct (Index s lf) as [m|] eqn:Hm.
  - rewrite (count_byte_Index_Some _ _ Hm), (segments_Index_Some _ _ Hm).
    simpl split_loop. rewrite Hm. f_equal.
    change (String.length lf) with 1%nat.
    eapply IH; [|reflexivity].
    pose proof (Index_lf_bound _ _ Hm).
    pose proof (length_slice_from (m + 1) s ltac:(lia)). lia.
  - rewrite (count_byte_Index_None _ Hm), (segments_Index_None _ Hm).
    reflexivity.
Qed.

(** [strings.Split(s, "\n")] is the list of ["\n"]-separated segments. *)
Lemma Split_lf (s : string) : Split s lf = segments s.
Proof. unfold Split. rewrite Count_lf. apply split_loop_lf. Qed.

Lemma length_segments (s : string) :
  length (segments s) = S (count_byte LF s).
Proof.
  induction s as [|c r IH]; [reflexivity|].
  simpl. destruct (Ascii.eqb c LF); simpl.
  - by rewrite IH.
  - pose proof (segments_nonempty r).
    destruct (segments r); [done|]. simpl in *. lia.
Qed.

Lemma Join_cons_byte (c : ascii) (seg : string) (segs : list string) :
  Join (String c seg :: segs) lf = String c (Join (seg :: segs) lf).
Proof. by destruct segs. Qed.

(** Joining the segments with ["\n"] gives the text back. *)
Lemma Join_segments (s : string) : Join (segments s) lf = s.
Proof.
  induction s as [|c r IH]; [reflexivity|].
  simpl segments. destruct (Ascii.eqb c LF) eqn:Hc.
  - apply Ascii.eqb_eq in Hc. subst c.
    pose proof (segments_nonempty r).
    destruct (segments r) as [|seg segs] eqn:Hr; [done|].
    change (Join (EmptyString :: seg :: segs) lf)
      with (String LF (Join (seg :: segs) lf)).
    by rewrite IH.
  - pose proof (segments_nonempty r).
    destruct (segments r) as [|seg segs] eqn:Hr; [done|].
    rewrite Join_cons_byte. by rewrite IH.
Qed.

(** *** ["\r\n"] *)

Lemma HasPrefix_crlf_true (s : string) :
  HasPrefix s crlf = true -> exists r, s = String CR (String LF r).
Proof.
  destruct s as [|c [|d r]]; unfold crlf; cbn [HasPrefix];
    try discriminate.
  - destruct (Ascii.eqb c CR); discriminate.
  - destruct (Ascii.eqb c CR) eqn:Hc; [|discriminate].
    destruct (Ascii.eqb d LF) eqn:Hd; [|discriminate].
    apply Ascii.eqb_eq in Hc, Hd. subst. eauto.
Qed.

Lemma crlf_to_lf_no_prefix (c : ascii) (r : string) :
  HasPrefix (String c r) crlf = false ->
  crlf_to_lf (String c r) = String c (crlf_to_lf r).
Proof.
  destruct r as [|d r]; [reflexivity|].
  unfold crlf. cbn [HasPrefix]. intros H.
  change (crlf_to_lf (String c (String d r)))
    with (if Ascii.eqb c CR && Ascii.eqb d LF
          then String LF (crlf_to_lf r)
          else String c (crlf_to_lf (String d r))).
  destruct (Ascii.eqb c CR); [|reflexivity].
  destruct (Ascii.eqb d LF); [discriminate | reflexivity].
Qed.

Lemma Index_cons (c : ascii) (r sep : string) :
  Index (String c r) sep
  = if HasPrefix (String c r) sep then Some O else S <$> Index r sep.
Proof. reflexivity. Qed.

Lemma Index_crlf_bound (s : string) (j : nat) :
  Index s crlf = Some j -> (j + 2 <= String.length s)%nat.
Proof.
  revert j. induction s as [|c r IH]; intros j; [discriminate|].
  rewrite Index_cons. destruct (HasPrefix (String c r) crlf) eqn:Hp.
  - apply HasPrefix_crlf_true in Hp as [r' [= -> ->]].
    intros [= <-]. simpl. lia.
  - destruct (Index r crlf) as [j'|]; [|discriminate].
    intros [= <-]. specialize (IH j' eq_refl). simpl. lia.
Qed.

(** Replacing the first ["\r\n"] and going on behind it. *)
Lemma crlf_to_lf_Index_Some (s : string) (j : nat) :
  Index s crlf = Some j ->
  crlf_to_lf s = slice_to j s +:+ lf +:+ crlf_to_lf (slice_from (j + 2) s).
Proof.
  revert j. induction s as [|c r IH]; intros j; [discriminate|].
  rewrite Index_cons. destruct (HasPrefix (String c r) crlf) eqn:Hp.
  - apply HasPrefix_crlf_true in Hp as [r' [= -> ->]].
    intros [= <-]. reflexivity.
  - destruct (Index r crlf) as [j'|]; [|discriminate].
    intros [= <-]. rewrite (crlf_to_lf_no_prefix _ _ Hp), (IH j' eq_refl).
    reflexivity.
Qed.

Lemma crlf_to_lf_Index_None (s : string) :
  Index s crlf = None -> crlf_to_lf s = s.
Proof.
  induction s as [|c r IH]; [reflexivity|].
  rewrite Index_cons. destruct (HasPrefix (String c r) crlf) eqn:Hp;
    [discriminate|].
  destruct (Index r crlf); [discriminate|].
  intros _. by rewrite (crlf_to_lf_no_prefix _ _ Hp), IH.
Qed.

Lemma replace_loop_crlf (fuel : nat) (s : string) :
  (String.length s < fuel)%nat ->
  replace_loop (count_loop fuel s crlf) s crlf lf = crlf_to_lf s.
Proof.
  revert s. induction fuel as [|fuel IH]; intros s Hlen; [lia|].
  simpl count_loop. destruct (Index s crlf) as [j|] eqn:Hj.
  - simpl replace_loop. rewrite Hj, (crlf_to_lf_Index_Some _ _ Hj).
    change (String.length crlf) with 2%nat. rewrite IH; [reflexivity|].
    pose proof (Index_crlf_bound _ _ Hj).
    pose proof (length_slice_from (j + 2) s ltac:(lia)). lia.
  - by rewrite crlf_to_lf_Index_None.
Qed.

(** [strings.Replace(s, "\r\n", "\n", -1)] is [s] with every ["\r\n"]
    replaced by ["\n"]. *)
Lemma Replace_crlf (s : string) : Replace s crlf lf (-1) = crlf_to_lf s.
Proof.
  unfold Replace. change (String.eqb crlf lf || (-1 =? 0)) with false.
  cbv iota. change (-1 <? 0) with true. cbv iota beta zeta.
  rewrite orb_true_l.
  pose proof (replace_loop_crlf (S (String.length s)) s ltac:(lia)) as H.
  fold (Count s crlf) in H.
  destruct (Nat.eqb_spec (Count s crlf) 0) as [H0|_]; [|exact H].
  rewrite H0 in H. exact H.
Qed.

(** Normalisation leaves the ["\n"] bytes alone. *)
Lemma count_byte_crlf_to_lf (s : string) :
  count_byte LF (crlf_to_lf s) = count_byte LF s.
Proof.
  remember (String.length s) as k eqn:Hk.
  revert s Hk. induction k as [k IH] using lt_wf_ind. intros s ->.
  destruct s as [|c [|d r]]; [reflexivity..|].
  change (crlf_to_lf (String c (String d r)))
    with (if Ascii.eqb c CR && Ascii.eqb d LF
          then String LF (crlf_to_lf r)
          else String c (crlf_to_lf (String d r))).
  destruct (Ascii.eqb c CR) eqn:Hc; destruct (Ascii.eqb d LF) eqn:Hd; simpl andb;
    cbv iota.
  - apply Ascii.eqb_eq in Hc, Hd. subst.
    change (S (count_byte LF (crlf_to_lf r)) = S (count_byte LF r)).
    f_equal. eapply IH; [|reflexivity]. simpl. lia.
  - change (count_byte LF (String c (crlf_to_lf (String d r))))
      with ((if Ascii.eqb c LF then 1 else 0)
            + count_byte LF (crlf_to_lf (String d r)))%nat.
    rewrite (IH (String.length (String d r))); [reflexivity| simpl; lia | reflexivity].
  - change (count_byte LF (String c (crlf_to_lf (String d r))))
      with ((if Ascii.eqb c LF then 1 else 0)
            + count_byte LF (crlf_to_lf (String d r)))%nat.
    rewrite (IH (String.length (String d r))); [reflexivity| simpl; lia | reflexivity].
  - change (count_byte LF (String c (crlf_to_lf (String d r))))
      with ((if Ascii.eqb c LF then 1 else 0)
            + count_byte LF (crlf_to_lf (String d r)))%nat.
    rewrite (IH (String.length (String d r))); [reflexivity| simpl; lia | reflexivity].
Qed.

End StringsFacts.

(** ** The calls on an idle and on a locked cache *)
Section Calls.
Implicit Types (c : gmap string (list string)) (uri id text : string).

Lemma add_idle uri text c :
  add uri text (idle c) = (Returns tt, idle (<[uri := stored_lines text]> c)).
Proof. reflexivity. Qed.

Lemma remove_idle uri c :
  remove uri (idle c) = (Returns tt, idle (delete uri c)).
Proof. reflexivity. Qed.

Lemma content_idle uri c :
  content uri (idle c) = (Returns (default [] (c !! uri)), idle c).
Proof. reflexivity. Qed.

Lemma exists_idle uri c :
  exists_ uri (idle c) = (Returns (bool_decide (is_Some (c !! uri))), idle c).
Proof. reflexivity. Qed.

Lemma line_idle uri (n : Z) c :
  line uri n (idle c)
  = (if n <? 0 then Panics IndexOutOfRange
     else match default [] (c !! uri) !! Z.to_nat n with
          | Some l => Returns l
          | None => Panics IndexOutOfRange
          end, idle c).
Proof.
  unfold line, bind, defer, Lock, Unlock, map_index, slice_index; simpl.
  destruct (n <? 0); [reflexivity|].
  by destruct (default [] (c !! uri) !! Z.to_nat n).
Qed.

Lemma getContent_idle uri c :
  getContent uri (idle c)
  = (Returns (strings.Join (default [] (c !! uri)) lf), idle c).
Proof. reflexivity. Qed.

Lemma getLineCount_idle uri c :
  getLineCount uri (idle c)
  = (Returns (Z.of_nat (length (default [] (c !! uri)))), idle c).
Proof. reflexivity. Qed.

Lemma changeFile_idle id (ver : Z) ch rest c :
  changeFile (change_params id ver (ch :: rest)) (idle c)
  = (Returns tt,
     idle (<[id := stored_lines (lsp.TextDocumentContentChangeEvent.Text ch)]> c)).
Proof. reflexivity. Qed.

Lemma changeFile_no_changes id (ver : Z) (st : files) :
  changeFile (change_params id ver []) st = (Panics IndexOutOfRange, st).
Proof. reflexivity. Qed.

(** On a held mutex every method waits, and the cache stays as it is. *)
Lemma add_locked uri text c :
  add uri text (mkFiles c Locked) = (Blocks, mkFiles c Locked).
Proof. reflexivity. Qed.

Lemma remove_locked uri c :
  remove uri (mkFiles c Locked) = (Blocks, mkFiles c Locked).
Proof. reflexivity. Qed.

Lemma line_locked uri (n : Z) c :
  line uri n (mkFiles c Locked) = (Blocks, mkFiles c Locked).
Proof. reflexivity. Qed.

Lemma content_locked uri c :
  content uri (mkFiles c Locked) = (Blocks, mkFiles c Locked).
Proof. reflexivity. Qed.

Lemma exists_locked uri c :
  exists_ uri (mkFiles c Locked) = (Blocks, mkFiles c Locked).
Proof. reflexivity. Qed.

Lemma stored_lines_segments text :
  stored_lines text = segments (crlf_to_lf text).
Proof. unfold stored_lines. by rewrite Replace_crlf, Split_lf. Qed.

End Calls.

(** ** Reads and the state *)
Section Reads.
Implicit Types (st : files) (uri : string).

Lemma line_state uri (n : Z) st : snd (line uri n st) = st.
Proof.
  destruct st as [c []].
  - change (mkFiles c Unlocked) with (idle c). by rewrite line_idle.
  - reflexivity.
Qed.

Lemma content_state uri st : snd (content uri st) = st.
Proof. by destruct st as [c []]. Qed.

Lemma exists_state uri st : snd (exists_ uri st) = st.
Proof. by destruct st as [c []]. Qed.

Lemma getContent_state uri st : snd (getContent uri st) = st.
Proof. by destruct st as [c []]. Qed.

Lemma getLineCount_state uri st : snd (getLineCount uri st) = st.
Proof. by destruct st as [c []]. Qed.

Lemma perform_read (cl : call) st : is_write cl = false -> perform cl st = st.
Proof.
  destruct cl; try discriminate; intros _; simpl.
  - apply line_state.
  - apply getContent_state.
  - apply getLineCount_state.
  - apply exists_state.
Qed.

End Reads.

(** ** The invariant of the reachable states *)
Section Reachable.

Lemma state_after_snoc (tr : list call) (cl : call) :
  state_after (tr ++ [cl]) = perform cl (state_after tr).
Proof. unfold state_after. by rewrite foldl_snoc. Qed.

Lemma last_stored_snoc (id : string) (tr : list call) (cl : call) :
  last_stored id (tr ++ [cl]) = track id (last_stored id tr) cl.
Proof. unfold last_stored. by rewrite foldl_snoc. Qed.

(** One call keeps the mutex free and the entries in step with [track]. *)
Lemma perform_track (cl : call) (c : gmap string (list string))
    (last : string -> option string) :
  (forall id, c !! id = stored_lines <$> last id) ->
  exists c', perform cl (idle c) = idle c'
             /\ forall id, c' !! id = stored_lines <$> track id (last id) cl.
Proof.
  intros Hc. destruct cl as [[[u lang ver text]]|[[u]]|[[u ver] chs]|u n|u|u|u].
  - exists (<[u := stored_lines text]> c). split; [reflexivity|].
    intros id. simpl. case_decide as Hid.
    + subst. by rewrite lookup_insert_eq.
    + by rewrite lookup_insert_ne.
  - exists (delete u c). split; [reflexivity|].
    intros id. simpl. case_decide as Hid.
    + subst. by rewrite lookup_delete_eq.
    + by rewrite lookup_delete_ne.
  - destruct chs as [|ch rest].
    + exists c. split; [reflexivity|]. intros id. apply Hc.
    + exists (<[u := stored_lines (lsp.TextDocumentContentChangeEvent.Text ch)]> c).
      split; [reflexivity|].
      intros id. simpl. case_decide as Hid.
      * subst. by rewrite lookup_insert_eq.
      * by rewrite lookup_insert_ne.
  - exists c. split; [apply (perform_read (GetLine u n)); reflexivity|].
    intros id. apply Hc.
  - exists c. split; [reflexivity|]. intros id. apply Hc.
  - exists c. split; [reflexivity|]. intros id. apply Hc.
  - exists c. split; [reflexivity|]. intros id. apply Hc.
Qed.

(** After any sequence of calls the mutex is free and the entry of an
    identifier is the split, normalised text most recently stored for it. *)
Lemma state_after_inv (tr : list call) :
  exists c, state_after tr = idle c
            /\ forall id, c !! id = stored_lines <$> last_stored id tr.
Proof.
  induction tr as [|cl tr IH] using rev_ind.
  - exists ∅. split; [reflexivity|]. intros id. by rewrite lookup_empty.
  - destruct IH as (c & Hst & Hc).
    destruct (perform_track cl c (fun id => last_stored id tr) Hc)
      as (c' & Hst' & Hc').
    exists c'. split.
    + by rewrite state_after_snoc, Hst.
    + intros id. by rewrite last_stored_snoc.
Qed.

Lemma last_stored_never (id : string) (tr : list call) :
  forallb (fun cl => negb (passes_to_open_or_change id cl)) tr = true ->
  last_stored id tr = None.
Proof.
  induction tr as [|cl tr IH] using rev_ind; [reflexivity|].
  rewrite forallb_app, andb_true_iff. simpl. rewrite andb_true_r.
  intros [Htr Hcl]. rewrite last_stored_snoc, (IH Htr).
  destruct cl as [[[u lang ver text]]|[[u]]|[[u ver] chs]|u n|u|u|u];
    simpl in *; try reflexivity.
  - case_decide; [|reflexivity]. by rewrite bool_decide_eq_true_2 in Hcl.
  - by case_decide.
  - destruct chs; [reflexivity|].
    case_decide; [|reflexivity]. by rewrite bool_decide_eq_true_2 in Hcl.
Qed.

End Reachable.

(** ** Properties of the cache *)

(** C1: on an idle cache, [openFile] with text [T] for [id] followed by
    [getContent id] returns [T] with every ["\r\n"] replaced by ["\n"]; for
    the empty text it returns the empty string. *)
Theorem open_then_content (c : gmap string (list string)) (id lang : string)
    (ver : Z) (T : string) :
  (openFile (open_params id lang ver T) ;; getContent id) (idle c)
  = (Returns (crlf_to_lf T), idle (<[id := segments (crlf_to_lf T)]> c))
  /\ (openFile (open_params id lang ver "") ;; getContent id) (idle c)
     = (Returns "", idle (<[id := [""]]> c)).
Proof.
  assert (forall text,
    (openFile (open_params id lang ver text) ;; getContent id) (idle c)
    = (Returns (crlf_to_lf text), idle (<[id := segments (crlf_to_lf text)]> c)))
    as H.
  { intros text. unfold bind.
    change (openFile (open_params id lang ver text) (idle c))
      with (add id text (idle c)).
    rewrite add_idle, getContent_idle, lookup_insert_eq. simpl default.
    by rewrite stored_lines_segments, Join_segments. }
  split; [apply H | apply (H "")].
Qed.

(** C2: [changeFile] whose first content change carries the text [T] does
    to every cache what [openFile] with [T] does: the entry of [id] becomes
    the freshly split [T], whatever was stored before and also when nothing
    was. *)
Theorem change_same_as_open (id lang : string) (ver ver' : Z)
    (rng : option lsp.Range) (rl : N) (T : string)
    (rest : list lsp.TextDocumentContentChangeEvent.t) :
  let change :=
    changeFile (change_params id ver'
                  (lsp.TextDocumentContentChangeEvent.mk rng rl T :: rest)) in
  (forall st, change st = openFile (open_params id lang ver T) st)
  /\ (forall c, change (idle c)
                = (Returns tt, idle (<[id := segments (crlf_to_lf T)]> c)))
  /\ (forall c lang1 ver1 T1,
        (openFile (open_params id lang1 ver1 T1) ;; change ;; getContent id) (idle c)
        = (Returns (crlf_to_lf T), idle (<[id := segments (crlf_to_lf T)]> c)))
  /\ (forall c, change (idle (delete id c))
                = (Returns tt, idle (<[id := segments (crlf_to_lf T)]> c))).
Proof.
  intros change.
  assert (forall c, change (idle c)
                    = (Returns tt, idle (<[id := segments (crlf_to_lf T)]> c)))
    as Hc.
  { intros c. unfold change. rewrite changeFile_idle. simpl.
    by rewrite stored_lines_segments. }
  split; [|split; [|split]].
  - intros st. reflexivity.
  - exact Hc.
  - intros c lang1 ver1 T1. unfold bind at 1.
    change (openFile (open_params id lang1 ver1 T1) (idle c))
      with (add id T1 (idle c)).
    rewrite add_idle. unfold bind. rewrite Hc, getContent_idle.
    rewrite insert_insert_eq, lookup_insert_eq. simpl default.
    by rewrite Join_segments.
  - intros c. rewrite Hc. by rewrite insert_delete_eq.
Qed.

(** C3: on an idle cache, [getLineCount id] after [openFile] with text [T]
    is the number of ["\n"]-separated segments of the normalised [T]; it is
    one more than the number of ["\n"] bytes of [T], hence at least 1, and
    the empty text has the one empty segment. *)
Theorem count_after_open (c : gmap string (list string)) (id lang : string)
    (ver : Z) (T : string) :
  (openFile (open_params id lang ver T) ;; getLineCount id) (idle c)
  = (Returns (Z.of_nat (length (segments (crlf_to_lf T)))),
     idle (<[id := segments (crlf_to_lf T)]> c))
  /\ length (segments (crlf_to_lf T)) = S (count_byte LF T)
  /\ 1 <= Z.of_nat (length (segments (crlf_to_lf T)))
  /\ segments (crlf_to_lf "") = [""].
Proof.
  split; [|split; [|split]].
  - unfold bind.
    change (openFile (open_params id lang ver T) (idle c))
      with (add id T (idle c)).
    rewrite add_idle, getLineCount_idle, lookup_insert_eq. simpl default.
    by rewrite stored_lines_segments.
  - by rewrite length_segments, count_byte_crlf_to_lf.
  - rewrite length_segments. lia.
  - reflexivity.
Qed.

(** C4: in the cache left by any sequence of calls, if [isOpen id] is true
    and [0 <= n < getLineCount id], then [getLine id n] returns, without a
    fault, line [n] of the entry of [id], which is segment [n] of the
    normalised text most recently stored for [id]. *)
Theorem line_within_bounds (tr : list call) (id : string) (n k : Z) :
  fst (isOpen id (state_after tr)) = Returns true ->
  fst (getLineCount id (state_after tr)) = Returns k ->
  0 <= n < k ->
  exists T l,
    last_stored id tr = Some T
    /\ cache (state_after tr) !! id = Some (segments (crlf_to_lf T))
    /\ segments (crlf_to_lf T) !! Z.to_nat n = Some l
    /\ getLine id n (state_after tr) = (Returns l, state_after tr).
Proof.
  destruct (state_after_inv tr) as (c & -> & Hc).
  unfold isOpen, getLine. rewrite exists_idle, getLineCount_idle, line_idle.
  rewrite (Hc id). simpl cache. rewrite (Hc id).
  destruct (last_stored id tr) as [T|]; simpl; [|discriminate].
  rewrite stored_lines_segments.
  intros _ [= <-] Hn. exists T.
  destruct (lookup_lt_is_Some_2 (segments (crlf_to_lf T)) (Z.to_nat n))
    as [l Hl]; [lia|].
  exists l. split; [reflexivity|]. split; [reflexivity|]. split; [exact Hl|].
  destruct (Z.ltb_spec n 0); [lia|]. by rewrite Hl.
Qed.

Lemma line_within_bounds_witness :
  exists T l,
    last_stored a_txt opened_two_lines = Some T
    /\ cache (state_after opened_two_lines) !! a_txt
       = Some (segments (crlf_to_lf T))
    /\ segments (crlf_to_lf T) !! Z.to_nat 1 = Some l
    /\ getLine a_txt 1 (state_after opened_two_lines)
       = (Returns l, state_after opened_two_lines).
Proof.
  apply (line_within_bounds opened_two_lines a_txt 1 3).
  - vm_compute. reflexivity.
  - vm_compute. reflexivity.
  - lia.
Defined.

(** C5: in the cache left by any sequence of calls, [isOpen id] is true
    exactly when [id] has an entry; it is false when [id] was never passed
    to open or change; [closeFile] deletes the entry of [id], which leaves a
    cache without such an entry as it is; and after [closeFile], [isOpen id]
    is false whatever came before. *)
Theorem exists_iff_entry (tr : list call) (id : string) :
  (fst (isOpen id (state_after tr)) = Returns true
   <-> is_Some (cache (state_after tr) !! id))
  /\ (fst (isOpen id (state_after tr)) = Returns false
      <-> cache (state_after tr) !! id = None)
  /\ (forallb (fun cl => negb (passes_to_open_or_change id cl)) tr = true ->
      fst (isOpen id (state_after tr)) = Returns false)
  /\ closeFile (close_params id) (state_after tr)
     = (Returns tt, idle (delete id (cache (state_after tr))))
  /\ (cache (state_after tr) !! id = None ->
      closeFile (close_params id) (state_after tr) = (Returns tt, state_after tr))
  /\ (closeFile (close_params id) ;; isOpen id) (state_after tr)
     = (Returns false, idle (delete id (cache (state_after tr)))).
Proof.
  pose proof (last_stored_never id tr) as Hnever.
  destruct (state_after_inv tr) as (c & -> & Hc).
  unfold isOpen. rewrite exists_idle. simpl cache.
  split; [|split; [|split; [|split; [|split]]]].
  - simpl. split.
    + intros [= H]. by apply bool_decide_eq_true_1 in H.
    + intros H. by rewrite bool_decide_eq_true_2.
  - simpl. split.
    + intros [= H]. apply bool_decide_eq_false_1 in H.
      by apply eq_None_not_Some.
    + intros H. rewrite bool_decide_eq_false_2; [done|].
      rewrite H. by intros [? ?].
  - intros H. simpl. by rewrite (Hc id), (Hnever H).
  - reflexivity.
  - intros H. change (closeFile (close_params id) (idle c))
      with (remove id (idle c)).
    rewrite remove_idle. by rewrite delete_id.
  - unfold bind. change (closeFile (close_params id) (idle c))
      with (remove id (idle c)).
    rewrite remove_idle, exists_idle, lookup_delete_eq.
    rewrite bool_decide_eq_false_2; [done|]. by intros [? ?].
Qed.

Lemma exists_iff_entry_witness :
  forallb (fun cl => negb (passes_to_open_or_change b_txt cl))
    opened_then_changed = true
  /\ fst (isOpen b_txt (state_after opened_then_changed)) = Returns false.
Proof.
  split; [reflexivity|].
  apply (proj1 (proj2 (proj2 (exists_iff_entry opened_then_changed b_txt)))).
  reflexivity.
Defined.

(** C6, as stated, fails: after an open and a close of ["file:///a.txt"]
    the identifier has no entry, yet [getContent] and [getLineCount] do not
    fault: they return the empty string and 0. *)
Lemma missing_reads_all_fault_counterexample :
  cache (state_after opened_then_closed) !! a_txt = None
  /\ ~ (is_fault (fst (getLine a_txt 0 (state_after opened_then_closed))) = true
        /\ is_fault (fst (getContent a_txt (state_after opened_then_closed))) = true
        /\ is_fault (fst (getLineCount a_txt (state_after opened_then_closed))) = true)
  /\ fst (getContent a_txt (state_after opened_then_closed)) = Returns ""
  /\ fst (getLineCount a_txt (state_after opened_then_closed)) = Returns 0.
Proof.
  vm_compute. split; [reflexivity|]. split; [|split; reflexivity].
  intros (_ & H & _). discriminate H.
Qed.

(** C6, amended: when [id] was never opened, or was closed since, in the
    cache left by any sequence of calls [getLine id n] faults with an
    index out of range for every [n], and the fault leaves the cache as it
    was; [getContent id] and [getLineCount id] do not fault: they return the
    empty string and 0. *)
Theorem missing_line_faults (tr : list call) (id : string) (n : Z) :
  last_stored id tr = None ->
  cache (state_after tr) !! id = None
  /\ getLine id n (state_after tr) = (Panics IndexOutOfRange, state_after tr)
  /\ getContent id (state_after tr) = (Returns "", state_after tr)
  /\ getLineCount id (state_after tr) = (Returns 0, state_after tr).
Proof.
  intros Hlast. destruct (state_after_inv tr) as (c & -> & Hc).
  assert (c !! id = None) as Hid by (by rewrite (Hc id), Hlast).
  split; [exact Hid|]. split; [|split].
  - unfold getLine. rewrite line_idle, Hid. simpl.
    by destruct (n <? 0).
  - by rewrite getContent_idle, Hid.
  - by rewrite getLineCount_idle, Hid.
Qed.

Lemma missing_line_faults_witness :
  last_stored a_txt opened_then_closed = None
  /\ getLine a_txt 0 (state_after opened_then_closed)
     = (Panics IndexOutOfRange, state_after opened_then_closed).
Proof.
  split; [reflexivity|].
  apply (missing_line_faults opened_then_closed a_txt 0). reflexivity.
Defined.

(** C7: for an identifier without an entry, on an idle cache,
    [getContent] returns the empty string and [getLineCount] returns 0,
    neither faults; [getLine] faults for every index. *)
Theorem missing_content_and_count (c : gmap string (list string)) (id : string) :
  c !! id = None ->
  content id (idle c) = (Returns [], idle c)
  /\ getContent id (idle c) = (Returns "", idle c)
  /\ getLineCount id (idle c) = (Returns 0, idle c)
  /\ (forall n, getLine id n (idle c) = (Panics IndexOutOfRange, idle c))
  /\ isOpen id (idle c) = (Returns false, idle c).
Proof.
  intros Hid. split; [|split; [|split; [|split]]].
  - by rewrite content_idle, Hid.
  - by rewrite getContent_idle, Hid.
  - by rewrite getLineCount_idle, Hid.
  - intros n. unfold getLine. rewrite line_idle, Hid. simpl.
    by destruct (n <? 0).
  - unfold isOpen. rewrite exists_idle, Hid.
    rewrite bool_decide_eq_false_2; [done|]. by intros [? ?].
Qed.

Lemma missing_content_and_count_witness :
  (∅ : gmap string (list string)) !! a_txt = None
  /\ getContent a_txt (idle ∅) = (Returns "", idle ∅)
  /\ getLineCount a_txt (idle ∅) = (Returns 0, idle ∅).
Proof.
  split; [reflexivity|].
  pose proof (missing_content_and_count ∅ a_txt eq_refl)
    as (_ & Hcontent & Hcount & _).
  split; assumption.
Defined.

(** C8: for distinct identifiers [A] and [B], [openFile], [changeFile] and
    [closeFile] on [A] leave the entry of [B], present or absent, as it
    was, in every cache. *)
Theorem other_identifier_untouched (st : files) (A B lang : string) (ver : Z)
    (T : string) (changes : list lsp.TextDocumentContentChangeEvent.t) :
  A <> B ->
  cache (snd (openFile (open_params A lang ver T) st)) !! B = cache st !! B
  /\ cache (snd (changeFile (change_params A ver changes) st)) !! B
     = cache st !! B
  /\ cache (snd (closeFile (close_params A) st)) !! B = cache st !! B.
Proof.
  intros HAB. destruct st as [c [|]].
  - split; [|split].
    + simpl. by rewrite lookup_insert_ne.
    + destruct changes as [|ch rest]; [reflexivity|].
      simpl. by rewrite lookup_insert_ne.
    + simpl. by rewrite lookup_delete_ne.
  - split; [|split]; [reflexivity| |reflexivity].
    by destruct changes.
Qed.

Lemma other_identifier_untouched_witness :
  a_txt <> b_txt
  /\ cache (snd (openFile (open_params a_txt "gauge" 1 "spec")
                   (idle {[b_txt := ["kept"]]}))) !! b_txt
     = Some ["kept"]
  /\ cache (snd (changeFile (change_params a_txt 1 [full_text "spec"])
                   (idle {[b_txt := ["kept"]]}))) !! b_txt
     = Some ["kept"]
  /\ cache (snd (closeFile (close_params a_txt)
                   (idle {[b_txt := ["kept"]]}))) !! b_txt
     = Some ["kept"].
Proof.
  assert (a_txt <> b_txt) as Hne by discriminate.
  split; [exact Hne|].
  exact (other_identifier_untouched (idle {[b_txt := ["kept"]]}) a_txt b_txt
           "gauge" 1 "spec" [full_text "spec"] Hne).
Defined.

(** C9: [isOpen], [getLine], [getContent] and [getLineCount] leave every
    cache exactly as they found it, also when [getLine] faults; a call that
    leaves another cache is an open, a change or a close. *)
Theorem reads_do_not_mutate (st : files) (id : string) (n : Z) :
  snd (isOpen id st) = st
  /\ snd (getLine id n st) = st
  /\ snd (getContent id st) = st
  /\ snd (getLineCount id st) = st
  /\ (forall cl, is_write cl = true \/ perform cl st = st).
Proof.
  split; [apply exists_state|].
  split; [apply line_state|].
  split; [apply getContent_state|].
  split; [apply getLineCount_state|].
  intros cl. destruct (is_write cl) eqn:Hw; [by left|].
  right. by apply perform_read.
Qed.

(** ** Further properties of the cache *)
Section MoreFacts.
Import strings.

Lemma segments_lf_free (s : string) : Forall lf_free (segments s).
Proof.
  induction s as [|c r IH]; [by repeat constructor|].
  simpl segments. destruct (Ascii.eqb c LF) eqn:Hc.
  - constructor; [reflexivity | exact IH].
  - pose proof (segments_nonempty r).
    destruct (segments r) as [|seg segs]; [done|].
    inversion IH as [|? ? Hseg Hsegs]; subst.
    constructor; [|exact Hsegs].
    unfold lf_free in *. simpl. by rewrite Hc, Hseg.
Qed.

Lemma count_byte_app (b : ascii) (s t : string) :
  count_byte b (s +:+ t) = (count_byte b s + count_byte b t)%nat.
Proof.
  induction s as [|c r IH]; [reflexivity|].
  change (String c r +:+ t) with (String c (r +:+ t)).
  simpl count_byte. rewrite IH. lia.
Qed.

Lemma length_slice_to (n : nat) (s : string) :
  (n <= String.length s)%nat -> String.length (slice_to n s) = n.
Proof.
  revert s. induction n as [|n IH]; intros [|c r]; simpl; intros H;
    try lia; try reflexivity.
  rewrite IH; lia.
Qed.

Lemma length_append (s t : string) :
  String.length (s +:+ t) = (String.length s + String.length t)%nat.
Proof.
  induction s as [|c r IH]; [reflexivity|].
  change (String c r +:+ t) with (String c (r +:+ t)).
  simpl String.length. by rewrite IH.
Qed.

(** Every replaced ["\r\n"] makes the text one byte shorter. *)
Lemma length_crlf_to_lf_fuel (fuel : nat) (s : string) :
  (String.length s < fuel)%nat ->
  (String.length (crlf_to_lf s) + count_loop fuel s crlf = String.length s)%nat.
Proof.
  revert s. induction fuel as [|fuel IH]; intros s Hlen; [lia|].
  simpl count_loop. destruct (Index s crlf) as [j|] eqn:Hj.
  - pose proof (Index_crlf_bound _ _ Hj) as Hb.
    pose proof (length_slice_from (j + 2) s ltac:(lia)) as Hfrom.
    rewrite (crlf_to_lf_Index_Some _ _ Hj), !length_append.
    rewrite (length_slice_to j s) by lia.
    change (String.length crlf) with 2%nat.
    change (String.length lf) with 1%nat.
    specialize (IH (slice_from (j + 2) s) ltac:(lia)). lia.
  - rewrite (crlf_to_lf_Index_None _ Hj). lia.
Qed.

Lemma length_crlf_to_lf (s : string) :
  (String.length (crlf_to_lf s) + Count s crlf = String.length s)%nat.
Proof. apply length_crlf_to_lf_fuel. lia. Qed.

Lemma Count_crlf_Index (s : string) :
  Count s crlf = O <-> Index s crlf = None.
Proof.
  unfold Count. simpl count_loop.
  destruct (Index s crlf); split; intros; congruence.
Qed.

Lemma crlf_to_lf_fixed (s : string) :
  crlf_to_lf s = s <-> Index s crlf = None.
Proof.
  split; [|apply crlf_to_lf_Index_None].
  intros Heq. apply Count_crlf_Index.
  pose proof (length_crlf_to_lf s) as H. rewrite Heq in H. lia.
Qed.

(** What the reads return on an idle cache, by the entry of the identifier. *)
Lemma outcome_of_idle (cl : call) (c : gmap string (list string)) :
  exists c', perform cl (idle c) = idle c'
    /\ (outcome_of cl (idle c) = Returns tt
        \/ outcome_of cl (idle c) = Panics IndexOutOfRange).
Proof.
  destruct cl as [[[u lang ver text]]|[[u]]|[[u ver] chs]|u n|u|u|u].
  - eexists. split; [reflexivity|]. by left.
  - eexists. split; [reflexivity|]. by left.
  - destruct chs as [|ch rest].
    + eexists. split; [reflexivity|]. by right.
    + eexists. split; [reflexivity|]. by left.
  - exists c. unfold perform, outcome_of, getLine. rewrite line_idle. simpl.
    split; [reflexivity|].
    destruct (n <? 0); [by right|].
    destruct (default [] (c !! u) !! Z.to_nat n); [by left | by right].
  - exists c. split; [reflexivity|]. by left.
  - exists c. split; [reflexivity|]. by left.
  - exists c. split; [reflexivity|]. by left.
Qed.

End MoreFacts.

(** X1: started on a cache whose mutex is free, each of the seven functions
    ends and leaves the mutex free: it returns, or it panics with an index
    out of range, and only [getLine] and [changeFile] can panic. *)
Theorem call_leaves_mutex_free (cl : call) (c : gmap string (list string)) :
  mutex (perform cl (idle c)) = Unlocked
  /\ (outcome_of cl (idle c) = Returns tt
      \/ outcome_of cl (idle c) = Panics IndexOutOfRange)
  /\ (indexes_a_slice cl = true \/ outcome_of cl (idle c) = Returns tt).
Proof.
  destruct (outcome_of_idle cl c) as (c' & Hst & Hout).
  split; [by rewrite Hst|]. split; [exact Hout|].
  destruct cl; try (by left); by right.
Qed.


(** X3: on an idle cache, [getLine id n] returns a line exactly when
    [0 <= n < getLineCount id], and panics with an index out of range
    exactly when [n] is outside; a missing identifier has count 0, so every
    index is outside. *)
Theorem getLine_returns_iff_in_range (c : gmap string (list string))
    (id : string) (n k : Z) :
  fst (getLineCount id (idle c)) = Returns k ->
  (0 <= n < k <-> exists l, getLine id n (idle c) = (Returns l, idle c))
  /\ (~ (0 <= n < k)
      <-> getLine id n (idle c) = (Panics IndexOutOfRange, idle c)).
Proof.
  rewrite getLineCount_idle. simpl. intros [= <-].
  unfold getLine. rewrite line_idle.
  destruct (Z.ltb_spec n 0) as [Hneg|Hpos].
  - split; split.
    + lia.
    + intros [l [=]].
    + reflexivity.
    + lia.
  - destruct (default [] (c !! id) !! Z.to_nat n) as [l|] eqn:Hl.
    + apply lookup_lt_Some in Hl. split; split.
      * intros _. by exists l.
      * lia.
      * lia.
      * intros [=].
    + apply lookup_ge_None in Hl. split; split.
      * lia.
      * intros [l [=]].
      * reflexivity.
      * lia.
Qed.

Lemma getLine_returns_iff_in_range_witness :
  fst (getLineCount a_txt (state_after opened_two_lines)) = Returns 3
  /\ (0 <= 2 < 3
      <-> exists l, getLine a_txt 2 (state_after opened_two_lines)
                    = (Returns l, state_after opened_two_lines)).
Proof.
  split; [vm_compute; reflexivity|].
  apply (getLine_returns_iff_in_range
           (<[a_txt := stored_lines two_lines]> ∅) a_txt 2 3).
  vm_compute. reflexivity.
Defined.

(** X4: after any sequence of calls, an identifier is open exactly when
    its line count is at least 1 (and closed exactly when the count is 0),
    and no line that [getLine] returns contains a ["\n"] byte. *)
Theorem open_document_has_lines (tr : list call) (id : string) :
  (fst (isOpen id (state_after tr)) = Returns true
   <-> exists k, fst (getLineCount id (state_after tr)) = Returns k /\ 1 <= k)
  /\ (fst (isOpen id (state_after tr)) = Returns false
      <-> fst (getLineCount id (state_after tr)) = Returns 0)
  /\ (forall n l, fst (getLine id n (state_after tr)) = Returns l -> lf_free l).
Proof.
  destruct (state_after_inv tr) as (c & -> & Hc).
  unfold isOpen, getLine.
  rewrite exists_idle, getLineCount_idle. simpl fst.
  pose proof (Hc id) as Hid.
  destruct (last_stored id tr) as [T|]; simpl in Hid; rewrite Hid; simpl.
  - rewrite stored_lines_segments in *. rewrite length_segments.
    split; [|split].
    + split; [|done]. intros _. eexists. split; [reflexivity|]. lia.
    + split; [done|]. intros [= H].
    + intros n l. rewrite line_idle, Hid. simpl.
      destruct (n <? 0); [discriminate|].
      destruct (segments (crlf_to_lf T) !! Z.to_nat n) as [l'|] eqn:Hl;
        [|discriminate].
      intros [= <-].
      eapply Forall_lookup_1; [apply segments_lf_free | exact Hl].
  - split; [|split].
    + split; [discriminate|]. intros (k & [= <-] & Hk). lia.
    + done.
    + intros n l. rewrite line_idle, Hid. simpl.
      by destruct (n <? 0).
Qed.

(** X5: after any sequence of calls, the lines of an open document are
    [strings.Split] of what [getContent] returns for it: the line view and
    the content view of the cache agree. *)
Theorem lines_are_split_content (tr : list call) (id : string) :
  fst (isOpen id (state_after tr)) = Returns true ->
  exists text,
    getContent id (state_after tr) = (Returns text, state_after tr)
    /\ cache (state_after tr) !! id = Some (strings.Split text lf)
    /\ forall n, getLine id n (state_after tr)
                 = slice_index (strings.Split text lf) n (state_after tr).
Proof.
  destruct (state_after_inv tr) as (c & -> & Hc).
  unfold isOpen, getLine. rewrite exists_idle, getContent_idle. simpl.
  pose proof (Hc id) as Hid.
  destruct (last_stored id tr) as [T|]; simpl in Hid; rewrite Hid;
    [|discriminate].
  intros _. rewrite stored_lines_segments in *. simpl default.
  rewrite Join_segments. exists (crlf_to_lf T). rewrite Split_lf.
  split; [reflexivity|]. split; [reflexivity|].
  intros n. rewrite line_idle, Hid. simpl default.
  unfold slice_index. destruct (n <? 0); [reflexivity|].
  by destruct (segments (crlf_to_lf T) !! Z.to_nat n).
Qed.

Lemma lines_are_split_content_witness :
  fst (isOpen a_txt (state_after opened_two_lines)) = Returns true
  /\ exists text,
       getContent a_txt (state_after opened_two_lines)
       = (Returns text, state_after opened_two_lines)
       /\ cache (state_after opened_two_lines) !! a_txt
          = Some (strings.Split text lf)
       /\ forall n, getLine a_txt n (state_after opened_two_lines)
                    = slice_index (strings.Split text lf) n
                        (state_after opened_two_lines).
Proof.
  split; [vm_compute; reflexivity|].
  apply (lines_are_split_content opened_two_lines a_txt).
  vm_compute. reflexivity.
Defined.

(** X6: [openFile] followed by [getContent] gives the text back unchanged
    exactly when the text contains no ["\r\n"]. *)
Theorem content_round_trip_iff_no_crlf (c : gmap string (list string))
    (id lang : string) (ver : Z) (T : string) :
  fst ((openFile (open_params id lang ver T) ;; getContent id) (idle c))
  = Returns T
  <-> strings.Index T crlf = None.
Proof.
  unfold bind.
  change (openFile (open_params id lang ver T) (idle c))
    with (add id T (idle c)).
  rewrite add_idle, getContent_idle, lookup_insert_eq. simpl.
  rewrite stored_lines_segments, Join_segments, <- crlf_to_lf_fixed.
  split; [by intros [= ->] | by intros ->].
Qed.

(** X7: the content of a freshly opened document is shorter than the text
    by one byte for each ["\r\n"] of the text. *)
Theorem content_length (c : gmap string (list string)) (id lang : string)
    (ver : Z) (T : string) :
  exists text,
    fst ((openFile (open_params id lang ver T) ;; getContent id) (idle c))
    = Returns text
    /\ (String.length text + strings.Count T crlf = String.length T)%nat.
Proof.
  unfold bind.
  change (openFile (open_params id lang ver T) (idle c))
    with (add id T (idle c)).
  rewrite add_idle, getContent_idle, lookup_insert_eq. simpl.
  rewrite stored_lines_segments, Join_segments.
  eexists. split; [reflexivity|]. apply length_crlf_to_lf.
Qed.

Section Effects.

Lemma perform_idle (cl : call) (c : gmap string (list string)) :
  perform cl (idle c) = idle (effect cl c).
Proof.
  destruct cl as [[[u lang ver text]]|[[u]]|[[u ver] chs]|u n|u|u|u];
    try reflexivity.
  - by destruct chs.
  - apply (perform_read (GetLine u n)). reflexivity.
Qed.

Lemma perform_held (cl : call) (c : gmap string (list string)) :
  perform cl (held c) = held c.
Proof.
  destruct cl as [[[u lang ver text]]|[[u]]|[[u ver] chs]|u n|u|u|u];
    try reflexivity.
  by destruct chs.
Qed.

Lemma effect_commute (cl1 cl2 : call) (c : gmap string (list string)) :
  target cl1 <> target cl2 ->
  effect cl2 (effect cl1 c) = effect cl1 (effect cl2 c).
Proof.
  intros Hne. unfold effect.
  destruct (map_op cl1) as [o1|], (map_op cl2) as [o2|]; try reflexivity.
  by rewrite partial_alter_partial_alter_ne.
Qed.

Lemma effect_overwrite (cl1 cl2 : call) (c : gmap string (list string)) :
  target cl1 = target cl2 -> reaches_the_map cl2 = true ->
  effect cl2 (effect cl1 c) = effect cl2 c.
Proof.
  intros Heq Hw. unfold effect.
  destruct (map_op cl2) as [o2|] eqn:H2.
  - destruct (map_op cl1) as [o1|]; [|reflexivity].
    rewrite Heq. by rewrite partial_alter_partial_alter_eq.
  - destruct cl2 as [?|?|[? chs]|?|?|?|?]; try discriminate.
    simpl in *. by destruct chs.
Qed.

End Effects.

(** X8: calls on different identifiers commute: done in either order they
    leave the same cache, whichever of the seven functions they are. *)
Theorem calls_on_distinct_ids_commute (cl1 cl2 : call) (st : files) :
  target cl1 <> target cl2 ->
  perform cl2 (perform cl1 st) = perform cl1 (perform cl2 st).
Proof.
  intros Hne. destruct st as [c [|]].
  - change (mkFiles c Unlocked) with (idle c).
    rewrite !perform_idle. by rewrite effect_commute.
  - change (mkFiles c Locked) with (held c).
    by rewrite !perform_held.
Qed.

Lemma calls_on_distinct_ids_commute_witness :
  target (OpenFile (open_params a_txt "gauge" 1 "spec"))
  <> target (CloseFile (close_params b_txt))
  /\ perform (CloseFile (close_params b_txt))
       (perform (OpenFile (open_params a_txt "gauge" 1 "spec"))
          (state_after opened_ab))
     = perform (OpenFile (open_params a_txt "gauge" 1 "spec"))
         (perform (CloseFile (close_params b_txt)) (state_after opened_ab)).
Proof.
  assert (target (OpenFile (open_params a_txt "gauge" 1 "spec"))
          <> target (CloseFile (close_params b_txt))) as Hne by discriminate.
  split; [exact Hne|].
  exact (calls_on_distinct_ids_commute _ _ (state_after opened_ab) Hne).
Defined.

(** X9: the last write wins: an open, a close, or a change with a content
    change, done after any other call on the same identifier, leaves the
    cache it would have left without that earlier call. *)
Theorem last_write_wins (cl1 cl2 : call) (st : files) :
  target cl1 = target cl2 ->
  reaches_the_map cl2 = true ->
  perform cl2 (perform cl1 st) = perform cl2 st.
Proof.
  intros Heq Hw. destruct st as [c [|]].
  - change (mkFiles c Unlocked) with (idle c).
    rewrite !perform_idle. by rewrite effect_overwrite.
  - change (mkFiles c Locked) with (held c).
    by rewrite !perform_held.
Qed.

Lemma last_write_wins_witness :
  target (OpenFile (open_params a_txt "gauge" 1 two_lines))
  = target (CloseFile (close_params a_txt))
  /\ reaches_the_map (CloseFile (close_params a_txt)) = true
  /\ perform (CloseFile (close_params a_txt))
       (perform (OpenFile (open_params a_txt "gauge" 1 two_lines))
          (state_after opened_ab))
     = perform (CloseFile (close_params a_txt)) (state_after opened_ab).
Proof.
  split; [reflexivity|]. split; [reflexivity|].
  exact (last_write_wins (OpenFile (open_params a_txt "gauge" 1 two_lines))
           (CloseFile (close_params a_txt)) (state_after opened_ab)
           eq_refl eq_refl).
Defined.

(** X10: [changeFile] looks at the text of the first content change only:
    its range, its range length, the document version and all further
    content changes make no difference, so a ranged change replaces the
    whole document; and without any content change the call panics with an
    index out of range before it takes the mutex, leaving every cache, a
    held one too, as it was. *)
Theorem change_uses_first_text_only (st : files) (id : string) (ver ver' : Z)
    (rng : option lsp.Range) (rl : N) (T : string)
    (rest : list lsp.TextDocumentContentChangeEvent.t) :
  changeFile (change_params id ver
                (lsp.TextDocumentContentChangeEvent.mk rng rl T :: rest)) st
  = changeFile (change_params id ver' [full_text T]) st
  /\ (mutex st = Unlocked ->
      (changeFile (change_params id ver
                     (lsp.TextDocumentContentChangeEvent.mk rng rl T :: rest)) ;;
       getContent id) st
      = (Returns (crlf_to_lf T), idle (<[id := segments (crlf_to_lf T)]> (cache st))))
  /\ changeFile (change_params id ver []) st = (Panics IndexOutOfRange, st)
  /\ (changeFile (change_params id ver []) ;; getContent id) st
     = (Panics IndexOutOfRange, st).
Proof.
  split; [reflexivity|]. split; [|split; reflexivity].
  destruct st as [c [|]]; [|discriminate]. intros _.
  change (mkFiles c Unlocked) with (idle c).
  unfold bind. rewrite changeFile_idle, getContent_idle, lookup_insert_eq.
  simpl. by rewrite stored_lines_segments, Join_segments.
Qed.

Lemma change_uses_first_text_only_witness :
  mutex (state_after opened_ab) = Unlocked
  /\ (changeFile
        (change_params a_txt 2
           [lsp.TextDocumentContentChangeEvent.mk
              (Some (lsp.Build_Range (lsp.Build_Position 0 0)
                       (lsp.Build_Position 0 1))) 1 "x";
            full_text "ignored"]) ;;
      getContent a_txt) (state_after opened_ab)
     = (Returns (crlf_to_lf "x"),
        idle (<[a_txt := segments (crlf_to_lf "x")]>
                (cache (state_after opened_ab)))).
Proof.
  split; [reflexivity|].
  apply (change_uses_first_text_only (state_after opened_ab) a_txt 2 2).
  reflexivity.
Defined.

(** X11: after any sequence of calls, what the reads return for an
    identifier depends on the text most recently stored for it and on
    nothing else: [isOpen] tells whether there is one, [getContent] is that
    text normalised (the empty string if there is none) and [getLineCount]
    is one more than its number of ["\n"] bytes (0 if there is none). *)
Theorem reads_depend_on_last_write (tr : list call) (id : string) :
  isOpen id (state_after tr)
  = (Returns (bool_decide (is_Some (last_stored id tr))), state_after tr)
  /\ getContent id (state_after tr)
     = (Returns (from_option crlf_to_lf "" (last_stored id tr)), state_after tr)
  /\ getLineCount id (state_after tr)
     = (Returns (from_option (fun T => 1 + Z.of_nat (count_byte LF T)) 0
                   (last_stored id tr)), state_after tr).
Proof.
  destruct (state_after_inv tr) as (c & -> & Hc).
  unfold isOpen. rewrite exists_idle, getContent_idle, getLineCount_idle.
  rewrite (Hc id). destruct (last_stored id tr) as [T|]; simpl.
  - rewrite stored_lines_segments, Join_segments, length_segments.
    rewrite count_byte_crlf_to_lf.
    split; [reflexivity|]. split; [reflexivity|].
    do 2 f_equal. lia.
  - by repeat split.
Qed.

(** X12: the line count of a freshly opened concatenation of two texts is
    the sum of the line counts of the two texts, minus 1: the last line of
    the first text and the first line of the second become one line. *)
Theorem line_count_of_concatenation (c : gmap string (list string))
    (id lang : string) (ver : Z) (T1 T2 : string) :
  exists k1 k2,
    fst ((openFile (open_params id lang ver T1) ;; getLineCount id) (idle c))
    = Returns k1
    /\ fst ((openFile (open_params id lang ver T2) ;; getLineCount id) (idle c))
       = Returns k2
    /\ fst ((openFile (open_params id lang ver (T1 +:+ T2)) ;; getLineCount id)
              (idle c))
       = Returns (k1 + k2 - 1).
Proof.
  assert (forall T,
    fst ((openFile (open_params id lang ver T) ;; getLineCount id) (idle c))
    = Returns (1 + Z.of_nat (count_byte LF T))) as H.
  { intros T. unfold bind.
    change (openFile (open_params id lang ver T) (idle c))
      with (add id T (idle c)).
    rewrite add_idle, getLineCount_idle, lookup_insert_eq. simpl.
    rewrite stored_lines_segments, length_segments, count_byte_crlf_to_lf.
    f_equal. lia. }
  exists (1 + Z.of_nat (count_byte LF T1)), (1 + Z.of_nat (count_byte LF T2)).
  rewrite !H, count_byte_app. split; [reflexivity|]. split; [reflexivity|].
  f_equal. lia.
Qed.

(** X13: closing undoes opening: when an identifier has no entry after a
    sequence of calls, opening it and then closing it leaves exactly the
    cache that was there before. *)
Theorem close_undoes_open (tr : list call) (id lang : string) (ver : Z)
    (T : string) :
  last_stored id tr = None ->
  state_after (tr ++ [OpenFile (open_params id lang ver T);
                      CloseFile (close_params id)])
  = state_after tr.
Proof.
  intros Hlast. unfold state_after. rewrite foldl_app. simpl.
  fold (state_after tr).
  destruct (state_after_inv tr) as (c & -> & Hc).
  change (idle (delete id (<[id := stored_lines T]> c)) = idle c).
  rewrite delete_insert_eq, delete_id; [reflexivity|].
  by rewrite (Hc id), Hlast.
Qed.

Lemma close_undoes_open_witness :
  last_stored b_txt opened_two_lines = None
  /\ state_after (opened_two_lines
                  ++ [OpenFile (open_params b_txt "gauge" 1 "concept");
                      CloseFile (close_params b_txt)])
     = state_after opened_two_lines.
Proof.
  split; [reflexivity|].
  apply (close_undoes_open opened_two_lines b_txt "gauge" 1 "concept").
  reflexivity.
Defined.

(** ** Properties of the logger *)
Section LoggerFacts.
Context {arg CL : Type}.
Implicit Types (w : logger.platform arg) (st : logger.state CL).

Lemma lower_bytes_no_upper (s : string) :
  has_upper s = false -> lower_bytes s = s.
Proof.
  induction s as [|c r IH]; [reflexivity|].
  simpl. intros [Hc Hr]%orb_false_elim.
  unfold lower_byte. by rewrite Hc, (IH Hr).
Qed.

Lemma ToLower_ascii w (s : string) :
  all_ascii s = true -> logger.ToLower w s = lower_bytes s.
Proof.
  intros Hs. unfold logger.ToLower. rewrite Hs.
  destruct (has_upper s) eqn:Hu; [reflexivity|].
  by rewrite lower_bytes_no_upper.
Qed.

Lemma lower_bytes_empty (s : string) : lower_bytes s = "" <-> s = "".
Proof. destruct s; simpl; split; congruence. Qed.

(** [loggingLevel] by the lower-case form of the name. *)
Lemma loggingLevel_cases w (s : string) :
  (logger.ToLower w s = "debug" /\ s <> ""
   /\ logger.loggingLevel w s = logging.DEBUG)
  \/ (logger.ToLower w s = "warning" /\ s <> ""
      /\ logger.loggingLevel w s = logging.WARNING)
  \/ (logger.ToLower w s = "error" /\ s <> ""
      /\ logger.loggingLevel w s = logging.ERROR)
  \/ ((s = "" \/ (logger.ToLower w s <> "debug"
                  /\ logger.ToLower w s <> "warning"
                  /\ logger.ToLower w s <> "error"))
      /\ logger.loggingLevel w s = logging.INFO).
Proof.
  unfold logger.loggingLevel.
  destruct (String.eqb_spec s "") as [->|Hs]; simpl.
  { right; right; right. split; [by left | reflexivity]. }
  destruct (String.eqb_spec (logger.ToLower w s) "debug") as [Hd|Hd].
  { left. by rewrite Hd. }
  destruct (String.eqb_spec (logger.ToLower w s) "info") as [Hi|Hi].
  { right; right; right. split; [|reflexivity]. right. by rewrite Hi. }
  destruct (String.eqb_spec (logger.ToLower w s) "warning") as [Hw|Hw].
  { right; left. by rewrite Hw. }
  destruct (String.eqb_spec (logger.ToLower w s) "error") as [He|He].
  { right; right; left. by rewrite He. }
  right; right; right. split; [by right | reflexivity].
Qed.

Lemma HandleWarningMessages_app w st (ws1 ws2 : list string) :
  logger.HandleWarningMessages w st (ws1 ++ ws2)
  = (logger.HandleWarningMessages w st ws1
     ++ logger.HandleWarningMessages w st ws2)%list.
Proof.
  induction ws1 as [|x ws1 IH]; [reflexivity|].
  change (((x :: ws1) ++ ws2)%list) with (x :: (ws1 ++ ws2)%list).
  cbn [logger.HandleWarningMessages]. rewrite IH. by rewrite <- app_assoc.
Qed.

Lemma write_sink w st (lvl : logging.Level) (msg : string) (args : list arg) :
  match logger.customLogger st with
  | Some l => logger.write w st lvl msg args
              = [logger.CustomLog l lvl (logger.Sprintf w msg args)]
  | None => logger.write w st lvl msg args
            = [logger.Println (logger.Sprintf w msg args)]
  end.
Proof. unfold logger.write. by destruct (logger.customLogger st). Qed.

End LoggerFacts.

Lemma loggingLevel_same_lower {arg : Type} (w : logger.platform arg)
    (s s' : string) :
  logger.ToLower w s = logger.ToLower w s' -> (s = "" <-> s' = "") ->
  logger.loggingLevel w s = logger.loggingLevel w s'.
Proof.
  intros Hl He. unfold logger.loggingLevel. rewrite Hl.
  destruct (String.eqb_spec s "") as [Hs|Hs],
           (String.eqb_spec s' "") as [Hs'|Hs']; try reflexivity.
  - by apply He in Hs.
  - by apply He in Hs'.
Qed.

(** X14: [loggingLevel] returns DEBUG, INFO, WARNING or ERROR, never
    CRITICAL or NOTICE; it returns INFO for the empty name, and DEBUG,
    WARNING or ERROR exactly for the names whose [strings.ToLower] is
    ["debug"], ["warning"] or ["error"]: every other name counts as INFO. *)
Theorem loggingLevel_range {arg : Type} (w : logger.platform arg) (s : string) :
  (logger.loggingLevel w s = logging.DEBUG
   \/ logger.loggingLevel w s = logging.INFO
   \/ logger.loggingLevel w s = logging.WARNING
   \/ logger.loggingLevel w s = logging.ERROR)
  /\ logger.loggingLevel w "" = logging.INFO
  /\ (logger.loggingLevel w s = logging.DEBUG
      <-> logger.ToLower w s = "debug")
  /\ (logger.loggingLevel w s = logging.WARNING
      <-> logger.ToLower w s = "warning")
  /\ (logger.loggingLevel w s = logging.ERROR
      <-> logger.ToLower w s = "error").
Proof.
  split; [|split; [reflexivity|]].
  - destruct (loggingLevel_cases w s)
      as [(_ & _ & ->)|[(_ & _ & ->)|[(_ & _ & ->)|(_ & ->)]]]; auto.
  - destruct (loggingLevel_cases w s)
      as [(Hl & _ & ->)|[(Hl & _ & ->)|[(Hl & _ & ->)|([->|(Hd & Hw & He)] & Hi)]]].
    + rewrite Hl. by repeat split.
    + rewrite Hl. by repeat split.
    + rewrite Hl. by repeat split.
    + by repeat split.
    + rewrite Hi. by repeat split.
Qed.

(** X15: for a name of ASCII bytes [loggingLevel] ignores the case of the
    letters: two names with the same lower-case form have the same level,
    and the level is DEBUG, WARNING or ERROR exactly when the lower-case
    form is ["debug"], ["warning"] or ["error"]. *)
Theorem loggingLevel_ignores_ascii_case {arg : Type} (w : logger.platform arg)
    (s : string) :
  all_ascii s = true ->
  (logger.loggingLevel w s = logging.DEBUG <-> lower_bytes s = "debug")
  /\ (logger.loggingLevel w s = logging.WARNING <-> lower_bytes s = "warning")
  /\ (logger.loggingLevel w s = logging.ERROR <-> lower_bytes s = "error")
  /\ (forall s', all_ascii s' = true -> lower_bytes s = lower_bytes s' ->
        logger.loggingLevel w s = logger.loggingLevel w s').
Proof.
  intros Hs. pose proof (ToLower_ascii w s Hs) as Hl.
  split; [|split; [|split]].
  - destruct (loggingLevel_cases w s)
      as [(H & _ & ->)|[(H & _ & ->)|[(H & _ & ->)|([->|(Hd & Hw & He)] & ->)]]];
      rewrite ?Hl in *; try rewrite H; by split.
  - destruct (loggingLevel_cases w s)
      as [(H & _ & ->)|[(H & _ & ->)|[(H & _ & ->)|([->|(Hd & Hw & He)] & ->)]]];
      rewrite ?Hl in *; try rewrite H; by split.
  - destruct (loggingLevel_cases w s)
      as [(H & _ & ->)|[(H & _ & ->)|[(H & _ & ->)|([->|(Hd & Hw & He)] & ->)]]];
      rewrite ?Hl in *; try rewrite H; by split.
  - intros s' Hs' Heq. apply loggingLevel_same_lower.
    + by rewrite Hl, (ToLower_ascii w s' Hs').
    + rewrite <- (lower_bytes_empty s), <- (lower_bytes_empty s').
      by rewrite Heq.
Qed.

Lemma loggingLevel_ignores_ascii_case_witness :
  all_ascii "DeBuG" = true
  /\ (logger.loggingLevel sample_platform "DeBuG" = logging.DEBUG
      <-> lower_bytes "DeBuG" = "debug").
Proof.
  split; [reflexivity|].
  apply (loggingLevel_ignores_ascii_case sample_platform "DeBuG").
  reflexivity.
Defined.

Lemma write_shown {arg CL : Type} (w : logger.platform arg)
    (st : logger.state CL) (lvl : logging.Level) (msg : string)
    (args : list arg) :
  logger.write w st lvl msg args = [shown st lvl (logger.Sprintf w msg args)].
Proof. unfold logger.write, shown. by destruct (logger.customLogger st). Qed.

(** X16: the level that [Initialize] sets gates the echo of [Debugf] and
    nothing else.  After [Initialize], [Debugf] hands format and operands
    to the logger gauge at level DEBUG in any case, and then shows the
    formatted message to the user, at level DEBUG and through the sink that
    was set before [Initialize], exactly when the level name stands for
    DEBUG.  [Infof], [Warningf] and [Errorf] hand theirs to the logger gauge
    at their own level and show it at every level.  Before any [Initialize]
    the level is the zero value CRITICAL and [Debugf] shows nothing. *)
Theorem Debugf_echo_follows_Initialize {arg CL : Type}
    (w : logger.platform arg) (st : logger.state CL) (logLevel msg : string)
    (args : list arg) :
  (logger.Debugf w (snd (logger.Initialize w st logLevel)) msg args
   = [logger.Logf logger.GaugeLog logging.DEBUG msg args;
      shown st logging.DEBUG (logger.Sprintf w msg args)]
   <-> logger.loggingLevel w logLevel = logging.DEBUG)
  /\ (logger.Debugf w (snd (logger.Initialize w st logLevel)) msg args
      = [logger.Logf logger.GaugeLog logging.DEBUG msg args]
      <-> logger.loggingLevel w logLevel <> logging.DEBUG)
  /\ logger.Infof w (snd (logger.Initialize w st logLevel)) msg args
     = [logger.Logf logger.GaugeLog logging.INFO msg args;
        shown st logging.INFO (logger.Sprintf w msg args)]
  /\ logger.Warningf w (snd (logger.Initialize w st logLevel)) msg args
     = [logger.Logf logger.GaugeLog logging.WARNING msg args;
        shown st logging.WARNING (logger.Sprintf w msg args)]
  /\ logger.Errorf w (snd (logger.Initialize w st logLevel)) msg args
     = [logger.Logf logger.GaugeLog logging.ERROR msg args;
        shown st logging.ERROR (logger.Sprintf w msg args)]
  /\ logger.Debugf w (logger.initial (CL := CL)) msg args
     = [logger.Logf logger.GaugeLog logging.DEBUG msg args].
Proof.
  set (st' := snd (logger.Initialize w st logLevel)).
  assert (logger.level st' = logger.loggingLevel w logLevel) as Hlevel
    by reflexivity.
  assert (forall lvl m, shown (arg := arg) st' lvl m = shown st lvl m) as Hsink
    by reflexivity.
  unfold logger.Debugf, logger.Infof, logger.Warningf, logger.Errorf.
  rewrite Hlevel, !write_shown, !Hsink.
  split; [|split; [|split; [|split; [|split]]]]; try reflexivity.
  - destruct (logger.loggingLevel w logLevel); cbn [logging.Level_eqb];
      split; first [discriminate | congruence | reflexivity].
  - destruct (logger.loggingLevel w logLevel); cbn [logging.Level_eqb];
      split; first [discriminate | congruence | reflexivity].
Qed.

(** X17: [HandleWarningMessages] logs the warnings one by one, in their
    order: for each warning it first hands the warning as a format, with no
    operands, to the logger gauge at level WARNING, and then shows the
    warning, formatted with itself as the format and no operands, to the
    user at level WARNING; these two events of one warning come before
    those of the next, so there are two events for each warning and none
    for an empty list. *)
Theorem HandleWarningMessages_in_order {arg CL : Type}
    (w : logger.platform arg) (st : logger.state CL) (warnings : list string) :
  logger.HandleWarningMessages w st warnings
  = flat_map
      (fun warning =>
         [logger.Logf logger.GaugeLog logging.WARNING warning [];
          shown st logging.WARNING (logger.Sprintf w warning [])])
      warnings
  /\ length (logger.HandleWarningMessages w st warnings)
     = (2 * length warnings)%nat.
Proof.
  induction warnings as [|x ws [IH IHl]]; [by split|].
  cbn [logger.HandleWarningMessages flat_map]. unfold logger.Warningf.
  rewrite write_shown, IH. split; [reflexivity|].
  rewrite <- IH. simpl length. rewrite IHl. lia.
Qed.

Lemma write_no_Println {arg CL : Type} (w : logger.platform arg)
    (st : logger.state CL) (l : CL) (lvl : logging.Level) (msg : string)
    (args : list arg) :
  logger.write w (logger.SetCustomLogger (Some l) st) lvl msg args
  = [logger.CustomLog l lvl (logger.Sprintf w msg args)]
  /\ logger.write w (logger.SetCustomLogger None st) lvl msg args
     = [logger.Println (logger.Sprintf w msg args)].
Proof. by split. Qed.

(** X18: with a custom logger set, no message-logging call writes to
    standard output: every message shown to the user goes to that logger;
    with the custom logger set to nil, none calls a custom logger. *)
Theorem custom_logger_replaces_stdout {arg CL : Type}
    (w : logger.platform arg) (st : logger.state CL) (l : CL)
    (cl : logger.log_call arg) :
  forallb (fun e => negb (logger.is_Println e))
    (logger.events_of w (logger.SetCustomLogger (Some l) st) cl) = true
  /\ Forall (fun e => forall l' lvl msg, e = logger.CustomLog l' lvl msg -> l' = l)
       (logger.events_of w (logger.SetCustomLogger (Some l) st) cl)
  /\ forallb (fun e => negb (logger.is_CustomLog e))
       (logger.events_of w (logger.SetCustomLogger None st) cl) = true.
Proof.
  destruct cl as [msg args|msg args|msg args|msg args|warnings]; simpl.
  - split; [reflexivity|]. split; [|reflexivity].
    repeat constructor; intros ? ? ? [=]; congruence.
  - split; [reflexivity|]. split; [|reflexivity].
    repeat constructor; intros ? ? ? [=]; congruence.
  - split; [reflexivity|]. split; [|reflexivity].
    repeat constructor; intros ? ? ? [=]; congruence.
  - unfold logger.Debugf.
    destruct (logging.Level_eqb _ _); simpl.
    + split; [reflexivity|]. split; [|reflexivity].
      repeat constructor; intros ? ? ? [=]; congruence.
    + split; [reflexivity|]. split; [|reflexivity].
      repeat constructor; intros ? ? ? [=].
  - induction warnings as [|x ws (IH1 & IH2 & IH3)].
    + split; [reflexivity|]. split; [constructor | reflexivity].
    + cbn [logger.HandleWarningMessages]. unfold logger.Warningf.
      rewrite !(proj1 (write_no_Println w st l _ _ _)).
      rewrite !(proj2 (write_no_Println w st l _ _ _)).
      simpl. rewrite IH1, IH3.
      split; [reflexivity|]. split; [|reflexivity].
      repeat constructor; try exact IH2; intros ? ? ? [=]; congruence.
Qed.

Lemma without_cr_crlf_to_lf (s : string) :
  without_cr (crlf_to_lf s) = without_cr s.
Proof.
  remember (String.length s) as k eqn:Hk.
  revert s Hk. induction k as [k IH] using lt_wf_ind. intros s ->.
  destruct s as [|c [|d r]]; [reflexivity..|].
  change (crlf_to_lf (String c (String d r)))
    with (if Ascii.eqb c CR && Ascii.eqb d LF
          then String LF (crlf_to_lf r)
          else String c (crlf_to_lf (String d r))).
  assert (without_cr (crlf_to_lf (String d r)) = without_cr (String d r))
    as Htail by (eapply IH; [|reflexivity]; simpl; lia).
  assert (without_cr (crlf_to_lf r) = without_cr r)
    as Htail2 by (eapply IH; [|reflexivity]; simpl; lia).
  destruct (Ascii.eqb c CR) eqn:Hc; destruct (Ascii.eqb d LF) eqn:Hd;
    simpl andb; cbv iota.
  - apply Ascii.eqb_eq in Hc, Hd. subst.
    change (String LF (without_cr (crlf_to_lf r)) = String LF (without_cr r)).
    by rewrite Htail2.
  - change (without_cr (String c (crlf_to_lf (String d r))))
      with (if Ascii.eqb c CR then without_cr (crlf_to_lf (String d r))
            else String c (without_cr (crlf_to_lf (String d r)))).
    change (without_cr (String c (String d r)))
      with (if Ascii.eqb c CR then without_cr (String d r)
            else String c (without_cr (String d r))).
    by rewrite Htail.
  - change (without_cr (String c (crlf_to_lf (String d r))))
      with (if Ascii.eqb c CR then without_cr (crlf_to_lf (String d r))
            else String c (without_cr (crlf_to_lf (String d r)))).
    change (without_cr (String c (String d r)))
      with (if Ascii.eqb c CR then without_cr (String d r)
            else String c (without_cr (String d r))).
    by rewrite Htail.
  - change (without_cr (String c (crlf_to_lf (String d r))))
      with (if Ascii.eqb c CR then without_cr (crlf_to_lf (String d r))
            else String c (without_cr (crlf_to_lf (String d r)))).
    change (without_cr (String c (String d r)))
      with (if Ascii.eqb c CR then without_cr (String d r)
            else String c (without_cr (String d r))).
    by rewrite Htail.
Qed.

(** X19: a freshly opened document keeps every byte of its text other than
    ["\r"], in order: [getContent] differs from the text by ["\r"] bytes
    only, and it has as many ["\n"] bytes as the text. *)
Theorem content_keeps_all_but_cr (c : gmap string (list string))
    (id lang : string) (ver : Z) (T : string) :
  exists text,
    fst ((openFile (open_params id lang ver T) ;; getContent id) (idle c))
    = Returns text
    /\ without_cr text = without_cr T
    /\ count_byte LF text = count_byte LF T.
Proof.
  unfold bind.
  change (openFile (open_params id lang ver T) (idle c))
    with (add id T (idle c)).
  rewrite add_idle, getContent_idle, lookup_insert_eq. simpl.
  rewrite stored_lines_segments, Join_segments.
  eexists. split; [reflexivity|]. split.
  - apply without_cr_crlf_to_lf.
  - apply count_byte_crlf_to_lf.
Qed.

(** ** Two goroutines: mutual exclusion and the order of their calls *)
Section Goroutines.
Context {A B : Type}.
Implicit Types (c : gmap string (list string)) (st : files).

Lemma locked_idle {X} (b : M X) c (r : outcome X) c' :
  b (held c) = (r, held c') -> r <> Blocks ->
  locked b (idle c) = (r, idle c').
Proof.
  intros Hb Hr. unfold locked, bind, defer, Lock, Unlock. simpl.
  change (mkFiles c Locked) with (held c). rewrite Hb.
  by destruct r.
Qed.

Lemma locked_held {X} (b : M X) c : locked b (held c) = (Blocks, held c).
Proof. reflexivity. Qed.

Lemma step_InBody {X} (b : M X) c (r : outcome X) c' :
  b (held c) = (r, held c') -> r <> Blocks ->
  goroutine_step b InBody (held c) = (AtUnlock r, held c').
Proof. intros Hb Hr. unfold goroutine_step. rewrite Hb. by destruct r. Qed.

Lemma interleave_app (b1 : M A) (b2 : M B) (s1 s2 : list bool)
    (p1 : position A) (p2 : position B) st :
  interleave b1 b2 (s1 ++ s2) p1 p2 st
  = let '(p1', p2', st') := interleave b1 b2 s1 p1 p2 st in
    interleave b1 b2 s2 p1' p2' st'.
Proof.
  revert p1 p2 st. induction s1 as [|[|] s1 IH]; intros p1 p2 st;
    [reflexivity| |].
  - change ((true :: s1) ++ s2)%list with (true :: (s1 ++ s2)%list).
    cbn [interleave]. destruct (goroutine_step b1 p1 st). apply IH.
  - change ((false :: s1) ++ s2)%list with (false :: (s1 ++ s2)%list).
    cbn [interleave]. destruct (goroutine_step b2 p2 st). apply IH.
Qed.

End Goroutines.

Section Order.
Context {A B : Type} (b1 : M A) (b2 : M B) (c0 : gmap string (list string)).
Hypothesis (Hb1 : map_only b1) (Hb2 : map_only b2).

(** A step of the goroutine that is first in the order. *)
Lemma fts_step_first (p1 : position A) (p2 : position B) (st : files) :
  first_then_second b1 b2 c0 p1 p2 st ->
  first_then_second b1 b2 c0
    (fst (goroutine_step b1 p1 st)) p2 (snd (goroutine_step b1 p1 st)).
Proof.
  intros H. destruct H; try (simpl; econstructor; eassumption).
  destruct (Hb1 c0) as (r & c' & Hr & Hnb).
  rewrite (step_InBody b1 c0 r c' Hr Hnb). simpl. by constructor.
Qed.

(** A step of the goroutine that is second in the order, once the first
    one has started. *)
Lemma fts_step_second (p1 : position A) (p2 : position B) (st : files) :
  first_then_second b1 b2 c0 p1 p2 st ->
  p1 <> AtLock ->
  first_then_second b1 b2 c0
    p1 (fst (goroutine_step b2 p2 st)) (snd (goroutine_step b2 p2 st)).
Proof.
  intros H Hp1. destruct H; try done; try (simpl; econstructor; eassumption).
  destruct (Hb2 c1) as (r & c' & Hr & Hnb).
  rewrite (step_InBody b2 c1 r c' Hr Hnb). simpl. by econstructor.
Qed.

Lemma fts_exclusion (p1 : position A) (p2 : position B) (st : files) :
  first_then_second b1 b2 c0 p1 p2 st ->
  inside p1 && inside p2 = false
  /\ mutex st = (if inside p1 || inside p2 then Locked else Unlocked).
Proof. intros H. by destruct H. Qed.

Lemma fts_finished (r1 : outcome A) (r2 : outcome B) (st : files) :
  first_then_second b1 b2 c0 (Finished r1) (Finished r2) st ->
  exists c1 c2,
    st = idle c2
    /\ locked b1 (idle c0) = (r1, idle c1)
    /\ locked b2 (idle c1) = (r2, idle c2).
Proof.
  intros H. inversion H; subst. exists c1, c2.
  split; [reflexivity|]. split; by apply locked_idle.
Qed.

End Order.

Section Schedules.
Context {A B : Type}.

Lemma fts_at_start (b1 : M A) (b2 : M B) (c0 : gmap string (list string))
    (p2 : position B) (st : files) :
  first_then_second b1 b2 c0 AtLock p2 st -> p2 = AtLock /\ st = idle c0.
Proof. intros H. by inversion H. Qed.

Lemma interleave_swap (b1 : M A) (b2 : M B) (sched : list bool)
    (p1 : position A) (p2 : position B) (st : files) :
  interleave b1 b2 sched p1 p2 st
  = let '(p2', p1', st') := interleave b2 b1 (negb <$> sched) p2 p1 st in
    (p1', p2', st').
Proof.
  revert p1 p2 st. induction sched as [|[|] sched IH]; intros p1 p2 st.
  - reflexivity.
  - cbn [interleave fmap list_fmap negb].
    destruct (goroutine_step b1 p1 st). apply IH.
  - cbn [interleave fmap list_fmap negb].
    destruct (goroutine_step b2 p2 st). apply IH.
Qed.

End Schedules.

Section Progress.
Context {A B : Type} (b1 : M A) (b2 : M B) (c0 : gmap string (list string)).
Hypothesis (Hb1 : map_only b1) (Hb2 : map_only b2).

(** Three turns are enough for the goroutine that is first in the order. *)
Lemma fts_first_three (p1 : position A) (p2 : position B) (st : files) :
  first_then_second b1 b2 c0 p1 p2 st ->
  exists r1 st',
    interleave b1 b2 [true; true; true] p1 p2 st = (Finished r1, p2, st')
    /\ first_then_second b1 b2 c0 (Finished r1) p2 st'.
Proof.
  intros H. destruct H.
  - destruct (Hb1 c0) as (r & c' & Hr & Hnb).
    exists r, (idle c'). split; [|by constructor].
    cbn [interleave]. change (goroutine_step b1 AtLock (idle c0))
      with (@InBody A, held c0).
    cbn iota. rewrite (step_InBody b1 c0 r c' Hr Hnb). reflexivity.
  - destruct (Hb1 c0) as (r & c' & Hr & Hnb).
    exists r, (idle c'). split; [|by constructor].
    cbn [interleave]. rewrite (step_InBody b1 c0 r c' Hr Hnb). reflexivity.
  - exists r1, (idle c1). split; [reflexivity | by constructor].
  - exists r1, (idle c1). split; [reflexivity | by constructor].
  - exists r1, (held c1). split; [reflexivity | by constructor].
  - exists r1, (held c2). split; [reflexivity | by econstructor].
  - exists r1, (idle c2). split; [reflexivity | by econstructor].
Qed.

(** Three turns are enough for the second one, once the first has left. *)
Lemma fts_second_three (r1 : outcome A) (p2 : position B) (st : files) :
  first_then_second b1 b2 c0 (Finished r1) p2 st ->
  exists r2 st',
    interleave b1 b2 [false; false; false] (Finished r1) p2 st
    = (Finished r1, Finished r2, st')
    /\ first_then_second b1 b2 c0 (Finished r1) (Finished r2) st'.
Proof.
  intros H. inversion H; subst.
  - destruct (Hb2 c1) as (r & c' & Hr & Hnb).
    exists r, (idle c'). split; [|by econstructor].
    cbn [interleave]. change (goroutine_step b2 AtLock (idle c1))
      with (@InBody B, held c1).
    cbn iota. rewrite (step_InBody b2 c1 r c' Hr Hnb). reflexivity.
  - destruct (Hb2 c1) as (r & c' & Hr & Hnb).
    exists r, (idle c'). split; [|by econstructor].
    cbn [interleave]. rewrite (step_InBody b2 c1 r c' Hr Hnb). reflexivity.
  - exists r2, (idle c2). split; [reflexivity | by econstructor].
  - exists r2, (idle c2). split; [reflexivity | by econstructor].
Qed.

(** Turns of the second one do not move the first. *)
Lemma fts_second_turns (n : nat) (p1 : position A) (p2 : position B)
    (st : files) :
  first_then_second b1 b2 c0 p1 p2 st -> p1 <> AtLock ->
  exists p2' st',
    interleave b1 b2 (replicate n false) p1 p2 st = (p1, p2', st')
    /\ first_then_second b1 b2 c0 p1 p2' st'.
Proof.
  revert p2 st. induction n as [|n IH]; intros p2 st H Hp1.
  - by exists p2, st.
  - cbn [replicate interleave].
    pose proof (fts_step_second b1 b2 c0 Hb2 p1 p2 st H Hp1) as Hstep.
    destruct (goroutine_step b2 p2 st) as [p2' st']. by apply IH.
Qed.

End Progress.

Section Serialised.
Context {A B : Type} (b1 : M A) (b2 : M B) (c0 : gmap string (list string)).
Hypothesis (Hb1 : map_only b1) (Hb2 : map_only b2).

(** Under every schedule the two goroutines stay in one of the two orders. *)
Lemma interleave_ordered (sched : list bool) (p1 : position A)
    (p2 : position B) (st : files) :
  first_then_second b1 b2 c0 p1 p2 st \/ first_then_second b2 b1 c0 p2 p1 st ->
  first_then_second b1 b2 c0
    (interleave b1 b2 sched p1 p2 st).1.1
    (interleave b1 b2 sched p1 p2 st).1.2
    (interleave b1 b2 sched p1 p2 st).2
  \/ first_then_second b2 b1 c0
       (interleave b1 b2 sched p1 p2 st).1.2
       (interleave b1 b2 sched p1 p2 st).1.1
       (interleave b1 b2 sched p1 p2 st).2.
Proof.
  revert p1 p2 st. induction sched as [|[|] sched IH]; intros p1 p2 st H.
  - exact H.
  - cbn [interleave].
    assert (first_then_second b1 b2 c0
              (goroutine_step b1 p1 st).1 p2 (goroutine_step b1 p1 st).2
            \/ first_then_second b2 b1 c0
                 p2 (goroutine_step b1 p1 st).1 (goroutine_step b1 p1 st).2)
      as Hstep.
    { destruct H as [H|H].
      - left. by apply fts_step_first.
      - destruct p2 as [| |r|r]; try (right; by apply fts_step_second).
        apply fts_at_start in H as [-> ->]. left.
        apply fts_step_first; [done | constructor]. }
    destruct (goroutine_step b1 p1 st) as [p1' st']. by apply IH.
  - cbn [interleave].
    assert (first_then_second b1 b2 c0
              p1 (goroutine_step b2 p2 st).1 (goroutine_step b2 p2 st).2
            \/ first_then_second b2 b1 c0
                 (goroutine_step b2 p2 st).1 p1 (goroutine_step b2 p2 st).2)
      as Hstep.
    { destruct H as [H|H].
      - destruct p1 as [| |r|r]; try (left; by apply fts_step_second).
        apply fts_at_start in H as [-> ->]. right.
        apply fts_step_first; [done | constructor].
      - right. by apply fts_step_first. }
    destruct (goroutine_step b2 p2 st) as [p2' st']. by apply IH.
Qed.

End Serialised.

Section Drain.
Context {A B : Type}.

(** When the first in the order has started, turns for the second, then for
    the first, then for the second let both finish. *)
Lemma drain_started (b1 : M A) (b2 : M B) (c0 : gmap string (list string))
    (p1 : position A) (p2 : position B) (st : files) :
  map_only b1 -> map_only b2 ->
  first_then_second b1 b2 c0 p1 p2 st -> p1 <> AtLock ->
  exists r1 r2 st',
    interleave b1 b2 (negb <$> drain) p1 p2 st = (Finished r1, Finished r2, st').
Proof.
  intros Hb1 Hb2 H Hp1.
  change (negb <$> drain)
    with (replicate 3 false ++ [true; true; true] ++ [false; false; false])%list.
  destruct (fts_second_turns b1 b2 c0 Hb2 3 p1 p2 st H Hp1)
    as (p2' & st1 & E1 & H1).
  destruct (fts_first_three b1 b2 c0 Hb1 p1 p2' st1 H1)
    as (r1 & st2 & E2 & H2).
  destruct (fts_second_three b1 b2 c0 Hb2 r1 p2' st2 H2)
    as (r2 & st3 & E3 & H3).
  exists r1, r2, st3.
  rewrite interleave_app, E1. cbn iota. rewrite interleave_app, E2. cbn iota.
  exact E3.
Qed.

(** From the start, [drain] lets both finish. *)
Lemma drain_start (b1 : M A) (b2 : M B) (c0 : gmap string (list string))
    (p1 : position A) (p2 : position B) (st : files) :
  map_only b1 -> map_only b2 ->
  first_then_second b1 b2 c0 p1 p2 st ->
  exists r1 r2 st',
    interleave b1 b2 drain p1 p2 st = (Finished r1, Finished r2, st').
Proof.
  intros Hb1 Hb2 H.
  change drain
    with ([true; true; true] ++ [false; false; false] ++ [true; true; true])%list.
  destruct (fts_first_three b1 b2 c0 Hb1 p1 p2 st H)
    as (r1 & st1 & E1 & H1).
  destruct (fts_second_three b1 b2 c0 Hb2 r1 p2 st1 H1)
    as (r2 & st2 & E2 & H2).
  exists r1, r2, st2.
  rewrite interleave_app, E1. cbn iota. rewrite interleave_app, E2. cbn iota.
  reflexivity.
Qed.

End Drain.

Section MethodBodies.

Lemma add_body_map_only (uri text : string) : map_only (add_body uri text).
Proof. intros c. eexists _, _. split; [reflexivity | discriminate]. Qed.

Lemma remove_body_map_only (uri : string) : map_only (remove_body uri).
Proof. intros c. eexists _, _. split; [reflexivity | discriminate]. Qed.

Lemma content_body_map_only (uri : string) : map_only (content_body uri).
Proof. intros c. eexists _, _. split; [reflexivity | discriminate]. Qed.

Lemma exists_body_map_only (uri : string) : map_only (exists_body uri).
Proof. intros c. eexists _, _. split; [reflexivity | discriminate]. Qed.

Lemma line_body_map_only (uri : string) (lineNo : Z) :
  map_only (line_body uri lineNo).
Proof.
  intros c. unfold line_body, bind, map_index, slice_index. simpl.
  destruct (lineNo <? 0).
  - eexists _, _. split; [reflexivity | discriminate].
  - destruct (default [] (c !! uri) !! Z.to_nat lineNo).
    + eexists _, _. split; [reflexivity | discriminate].
    + eexists _, _. split; [reflexivity | discriminate].
Qed.

End MethodBodies.

Section TwoCalls.
Context {A B : Type} (b1 : M A) (b2 : M B) (c0 : gmap string (list string)).
Hypothesis (Hb1 : map_only b1) (Hb2 : map_only b2).

(** What holds of two goroutines after any schedule from the idle cache. *)
Lemma interleave_from_start (sched : list bool) (p1 : position A)
    (p2 : position B) (st : files) :
  interleave b1 b2 sched AtLock AtLock (idle c0) = (p1, p2, st) ->
  first_then_second b1 b2 c0 p1 p2 st \/ first_then_second b2 b1 c0 p2 p1 st.
Proof.
  intros E.
  pose proof (interleave_ordered b1 b2 c0 Hb1 Hb2 sched AtLock AtLock (idle c0)
                (or_introl (fts_start b1 b2 c0))) as H.
  by rewrite E in H.
Qed.

Lemma interleave_then_drain (sched : list bool) :
  exists r1 r2 st',
    interleave b1 b2 (sched ++ drain) AtLock AtLock (idle c0)
    = (Finished r1, Finished r2, st').
Proof.
  rewrite interleave_app.
  destruct (interleave b1 b2 sched AtLock AtLock (idle c0))
    as [[p1 p2] st] eqn:E.
  destruct (interleave_from_start sched p1 p2 st E) as [H|H].
  - by apply (drain_start b1 b2 c0).
  - destruct p2 as [| |r|r].
    + apply fts_at_start in H as [-> ->].
      apply (drain_start b1 b2 c0); [done..|constructor].
    + destruct (drain_started b2 b1 c0 InBody p1 st Hb2 Hb1 H ltac:(done))
        as (r2 & r1 & st' & E').
      exists r1, r2, st'. by rewrite interleave_swap, E'.
    + destruct (drain_started b2 b1 c0 (AtUnlock r) p1 st Hb2 Hb1 H ltac:(done))
        as (r2 & r1 & st' & E').
      exists r1, r2, st'. by rewrite interleave_swap, E'.
    + destruct (drain_started b2 b1 c0 (Finished r) p1 st Hb2 Hb1 H ltac:(done))
        as (r2 & r1 & st' & E').
      exists r1, r2, st'. by rewrite interleave_swap, E'.
Qed.

End TwoCalls.



Example second_goroutine_waits :
  interleave (add_body a_txt "one") (add_body a_txt "two") [true; false; false]
    AtLock AtLock (idle ∅)
  = (InBody, AtLock, held ∅).
Proof. reflexivity. Qed.
